(** * webserver: configuration store, statistics registry, request history
      and dispatch engine, embedded from the Go sources

    Files covered:
    - [pkg/types/types.go]         (data model, statistics methods)
    - [internal/config/config.go]  (configuration manager)
    - [internal/server]            (request log, handlers, static files)

    Conventions.
    - Go [int] and [int64] values are integers in [Z]; every arithmetic
      update of an [int64] field is wrapped explicitly with [wrap64].
    - A Go [error] result is an [option error]; [None] is [nil].
    - Go maps that the code only ever copies or looks up are finite maps
      ([gmap]); a map field that may be [nil] is an [option (gmap _ _)].
    - The nested JSON objects of an endpoint ([Response],
      [SuccessResponse]) are Go maps, hence references: they are locations
      into a store of JSON objects, so that two [EndpointConfig] values
      copied from one another share them, exactly as in Go.
    - Wall-clock readings and the behaviour of the file system are inputs. *)

From Stdlib Require Import Ascii.
From stdpp Require Import base numbers option list strings gmap fin_maps.

Local Open Scope string_scope.
Local Open Scope Z_scope.

(** ** Machine integers *)

Definition min_int64 : Z := - 2 ^ 63.
Definition max_int64 : Z := 2 ^ 63 - 1.

(** Two's complement wrap-around of a 64 bit signed integer. *)
Definition wrap64 (z : Z) : Z := (z + 2 ^ 63) `mod` 2 ^ 64 - 2 ^ 63.

Definition in_int64 (z : Z) : Prop := min_int64 ≤ z ≤ max_int64.

(** Go's [a % b] on integers: truncated remainder; a zero divisor panics. *)
Definition go_rem (a b : Z) : option Z :=
  if b =? 0 then None else Some (Z.rem a b).

(** ** JSON objects held by reference *)

(** Values stored in a [map[string]interface{}]. The server never looks
    inside these values; it only encodes them back. *)
Inductive JValue : Type :=
  | JNull
  | JBool (b : bool)
  | JNum (n : Z)
  | JStr (s : string).

#[global] Instance JValue_eq_dec : EqDecision JValue.
Proof. solve_decision. Defined.

Abbreviation loc := positive (only parsing).

(** The store of JSON objects: what each Go map reference points to. *)
Abbreviation Heap := (gmap positive (gmap string JValue)) (only parsing).

(** Reading through a possibly [nil] map reference. *)
Definition deref (h : Heap) (r : option loc) : option (gmap string JValue) :=
  r ≫= (h !!.).

(** [m[k] = v] through a reference; writing through [nil] panics. *)
Definition store_key (h : Heap) (r : option loc) (k : string) (v : JValue)
  : option Heap :=
  match r with
  | None => None
  | Some l =>
      match h !! l with
      | None => None
      | Some o => Some (<[l := <[k := v]> o]> h)
      end
  end.

(** ** pkg/types: configuration *)

Record ServerConfig : Type := mkServerConfig {
  Port : Z;
  Host : string;
  StaticDir : string
}.

Record EndpointConfig : Type := mkEndpointConfig {
  Type_ : string;
  StatusCode : Z;
  Message : string;
  DelayMs : Z;
  Response : option loc;
  ErrorEveryN : Z;
  SuccessResponse : option loc
}.

Record Config : Type := mkConfig {
  Server : ServerConfig;
  Endpoints : option (gmap string EndpointConfig)
}.

(** What a reader of a configuration can observe: the configuration with
    every JSON reference replaced by the object it points to. This is also
    what [json.Marshal] writes. *)
Record EndpointView : Type := mkEndpointView {
  v_Type : string;
  v_StatusCode : Z;
  v_Message : string;
  v_DelayMs : Z;
  v_Response : option (gmap string JValue);
  v_ErrorEveryN : Z;
  v_SuccessResponse : option (gmap string JValue)
}.

Record ConfigView : Type := mkConfigView {
  v_Server : ServerConfig;
  v_Endpoints : option (gmap string EndpointView)
}.

Definition view_endpoint (h : Heap) (e : EndpointConfig) : EndpointView :=
  {| v_Type := Type_ e;
     v_StatusCode := StatusCode e;
     v_Message := Message e;
     v_DelayMs := DelayMs e;
     v_Response := deref h (Response e);
     v_ErrorEveryN := ErrorEveryN e;
     v_SuccessResponse := deref h (SuccessResponse e) |}.

Definition view_config (h : Heap) (c : Config) : ConfigView :=
  {| v_Server := Server c;
     v_Endpoints :=
       (λ m : gmap string EndpointConfig, view_endpoint h <$> m)
         <$> Endpoints c |}.

(** ** Errors of the configuration manager *)

Inductive error : Type :=
  | InvalidPort (p : Z)
  | HostEmpty
  | StaticDirEmpty
  | EndpointPathEmpty
  | InvalidEndpoint (path : string) (e : error)
  | InvalidStatusCode (c : Z)
  | NegativeDelay (d : Z)
  | ErrorEveryNTooSmall (n : Z)
  | UnknownEndpointType (t : string)
  | ConfigurationNotLoaded
  | EndpointNotFound
  | InvalidConfiguration (e : error)
  | InvalidEndpointConfiguration (e : error)
  | FailedToSaveConfig (e : error)
  | FailedToCreateConfigDir
  | FailedToWriteConfigFile.

(** ** internal/config: validation *)

(** [validateEndpointConfig]: the [switch] on [config.Type]. *)
Definition validateEndpointConfig (config : EndpointConfig) : option error :=
  if String.eqb (Type_ config) "error" then
    if (StatusCode config <? 400) || (StatusCode config >? 599)
    then Some (InvalidStatusCode (StatusCode config))
    else None
  else if String.eqb (Type_ config) "delay" then
    if DelayMs config <? 0
    then Some (NegativeDelay (DelayMs config))
    else None
  else if String.eqb (Type_ config) "conditional_error" then
    if ErrorEveryN config <? 1
    then Some (ErrorEveryNTooSmall (ErrorEveryN config))
    else if (StatusCode config <? 400) || (StatusCode config >? 599)
    then Some (InvalidStatusCode (StatusCode config))
    else None
  else if String.eqb (Type_ config) "static" then
    None
  else Some (UnknownEndpointType (Type_ config)).

(** The body of the [range config.Endpoints] loop of [validateConfig], over
    the entries in the order the iteration visits them. *)
Fixpoint validateEndpoints (entries : list (string * EndpointConfig))
  : option error :=
  match entries with
  | [] => None
  | (path, endpointConfig) :: rest =>
      if String.eqb path "" then Some EndpointPathEmpty
      else match validateEndpointConfig endpointConfig with
           | Some err => Some (InvalidEndpoint path err)
           | None => validateEndpoints rest
           end
  end.

(** [validateConfig]. Go leaves the iteration order of a map unspecified;
    the order of [map_to_list] is one such order. Whether an error is
    returned does not depend on the order. *)
Definition validateConfig (config : Config) : option error :=
  if (Port (Server config) <? 1) || (Port (Server config) >? 65535)
  then Some (InvalidPort (Port (Server config)))
  else if String.eqb (Host (Server config)) "" then Some HostEmpty
  else if String.eqb (StaticDir (Server config)) "" then Some StaticDirEmpty
  else validateEndpoints (map_to_list (default ∅ (Endpoints config))).

(** ** internal/config: the manager and the file it persists to *)

(** What [configPath] holds once it has been written to: a configuration
    written in full, or the remains of an [os.WriteFile] that failed
    after opening the file. Opening creates or truncates the file, so
    these remains are nothing at all, a part of the data, or data whose
    writing the failed close did not confirm: no reader can rely on
    them. *)
Inductive FileData : Type :=
  | Complete (v : ConfigView)
  | Torn.

(** The part of the file system that [saveConfigToFile] touches. The
    flags say whether [os.MkdirAll] and [os.WriteFile] succeed, and
    whether a failing [os.WriteFile] fails after it has opened the file
    rather than on opening it; [file] is what was last written to
    [configPath]. *)
Record Disk : Type := mkDisk {
  mkdir_ok : bool;
  write_ok : bool;
  write_opens : bool;
  file : option FileData
}.

(** [Manager]: [config] is [None] while [m.config] is [nil]. The manager's
    endpoint table is a map of its own ([GetConfig] hands out a fresh map),
    so it is held by value; the JSON objects it refers to live in [heap]. *)
Record Manager : Type := mkManager {
  configPath : string;
  config : option Config;
  heap : Heap;
  disk : Disk
}.

Definition set_config (m : Manager) (c : option Config) : Manager :=
  {| configPath := configPath m; config := c;
     heap := heap m; disk := disk m |}.

Definition set_heap (m : Manager) (h : Heap) : Manager :=
  {| configPath := configPath m; config := config m;
     heap := h; disk := disk m |}.

Definition set_file (m : Manager) (data : FileData) : Manager :=
  {| configPath := configPath m; config := config m; heap := heap m;
     disk := {| mkdir_ok := mkdir_ok (disk m);
                write_ok := write_ok (disk m);
                write_opens := write_opens (disk m);
                file := Some data |} |}.

Definition NewManager (path : string) (h : Heap) (d : Disk) : Manager :=
  {| configPath := path; config := None; heap := h; disk := d |}.

(** [saveConfigToFile]: create the directory, marshal, write. Marshalling a
    configuration made of [JValue]s cannot fail. [os.WriteFile] opens the
    file with [O_CREATE|O_TRUNC], writes and closes: when it fails on
    opening, the file is not touched; when it fails later, the file is
    left torn. *)
Definition saveConfigToFile (m : Manager) (c : Config)
  : Manager * option error :=
  if negb (mkdir_ok (disk m)) then (m, Some FailedToCreateConfigDir)
  else if negb (write_ok (disk m)) then
    (if write_opens (disk m) then set_file m Torn else m,
     Some FailedToWriteConfigFile)
  else (set_file m (Complete (view_config (heap m) c)), None).

(** [make(map[string]interface{})] followed by its initialisation. *)
Definition alloc (h : Heap) (o : gmap string JValue) : loc * Heap :=
  let l := fresh (dom h) in (l, <[l := o]> h).

(** [createDefaultConfig] *)
Definition createDefaultConfig (h : Heap) : Config * Heap :=
  let '(l1, h1) := alloc h {[ "message" := JStr "Delayed response" ]} in
  let '(l2, h2) := alloc h1 {[ "status" := JStr "ok" ]} in
  ({| Server := {| Port := 8080; Host := "0.0.0.0"; StaticDir := "./static" |};
      Endpoints := Some (
        <[ "/api/error" :=
             {| Type_ := "error"; StatusCode := 500;
                Message := "Internal Server Error"; DelayMs := 0;
                Response := None; ErrorEveryN := 0;
                SuccessResponse := None |} ]> (
        <[ "/api/delay" :=
             {| Type_ := "delay"; StatusCode := 0; Message := "";
                DelayMs := 2000; Response := Some l1; ErrorEveryN := 0;
                SuccessResponse := None |} ]> (
        <[ "/api/flaky" :=
             {| Type_ := "conditional_error"; StatusCode := 503;
                Message := ""; DelayMs := 0; Response := None;
                ErrorEveryN := 3; SuccessResponse := Some l2 |} ]> ∅))) |},
   h2).

(** What [os.Stat], [os.ReadFile] and [json.Unmarshal] yield in
    [LoadConfig]. A parsed configuration refers to JSON objects that the
    decoder has placed in the heap. *)
Inductive FileRead : Type :=
  | FileMissing
  | ReadFailed
  | ParseFailed
  | Parsed (c : Config).

Inductive load_error : Type :=
  | FailedToCreateDefault (e : error)
  | FailedToReadConfig
  | FailedToParseConfig
  | LoadedInvalid (e : error).

(** [LoadConfig] *)
Definition LoadConfig (r : FileRead) (m : Manager)
  : Manager * option load_error :=
  match r with
  | FileMissing =>
      let '(defaultConfig, h) := createDefaultConfig (heap m) in
      match saveConfigToFile (set_heap m h) defaultConfig with
      | (m', Some err) => (m', Some (FailedToCreateDefault err))
      | (m', None) => (set_config m' (Some defaultConfig), None)
      end
  | ReadFailed => (m, Some FailedToReadConfig)
  | ParseFailed => (m, Some FailedToParseConfig)
  | Parsed c =>
      match validateConfig c with
      | Some err => (m, Some (LoadedInvalid err))
      | None => (set_config m (Some c), None)
      end
  end.

(** The loop [for k, v := range m.config.Endpoints { copy[k] = v }]: each
    [EndpointConfig] is copied by value, so the copy holds the same
    [Response] and [SuccessResponse] references. *)
Definition copyEndpoints (src : option (gmap string EndpointConfig))
  : gmap string EndpointConfig :=
  map_fold (λ k v (acc : gmap string EndpointConfig), <[k := v]> acc)
           ∅ (default ∅ src).

(** [GetConfig] *)
Definition GetConfig (m : Manager) : option Config :=
  match config m with
  | None => None
  | Some c =>
      Some {| Server := Server c;
              Endpoints := Some (copyEndpoints (Endpoints c)) |}
  end.

(** [UpdateConfig]. The asynchronous [notifyWatchers] call does not touch
    the manager. *)
Definition UpdateConfig (newConfig : Config) (m : Manager)
  : Manager * option error :=
  match validateConfig newConfig with
  | Some err => (m, Some (InvalidConfiguration err))
  | None =>
      match saveConfigToFile m newConfig with
      | (m', Some err) => (m', Some (FailedToSaveConfig err))
      | (m', None) => (set_config m' (Some newConfig), None)
      end
  end.

(** [UpdateEndpoint] *)
Definition UpdateEndpoint (path : string) (endpointConfig : EndpointConfig)
    (m : Manager) : Manager * option error :=
  match config m with
  | None => (m, Some ConfigurationNotLoaded)
  | Some c =>
      match validateEndpointConfig endpointConfig with
      | Some err => (m, Some (InvalidEndpointConfiguration err))
      | None =>
          let table := default ∅ (Endpoints c) in
          let c' := {| Server := Server c;
                       Endpoints := Some (<[path := endpointConfig]> table) |} in
          match saveConfigToFile (set_config m (Some c')) c' with
          | (m', Some err) => (m', Some (FailedToSaveConfig err))
          | (m', None) => (m', None)
          end
      end
  end.

(** [RemoveEndpoint] *)
Definition RemoveEndpoint (path : string) (m : Manager)
  : Manager * option error :=
  match config m with
  | None => (m, Some ConfigurationNotLoaded)
  | Some c =>
      match Endpoints c with
      | None => (m, Some EndpointNotFound)
      | Some table =>
          let c' := {| Server := Server c;
                       Endpoints := Some (delete path table) |} in
          match saveConfigToFile (set_config m (Some c')) c' with
          | (m', Some err) => (m', Some (FailedToSaveConfig err))
          | (m', None) => (m', None)
          end
      end
  end.

(** ** pkg/types: statistics *)

(** [time.Duration] is a number of nanoseconds; [Milliseconds] divides,
    truncating towards zero. *)
Definition Milliseconds (duration : Z) : Z := Z.quot duration 1000000.

Module EndpointStats.

(** [time.Time] fields are [None] while they hold the zero time. The
    status histogram may be a [nil] map. *)
Record t : Type := mk {
  Path : string;
  RequestCount : Z;
  ErrorCount : Z;
  TotalTimeMs : Z;
  MinTimeMs : Z;
  MaxTimeMs : Z;
  StatusCodes : option (gmap Z Z);
  FirstRequest : option Z;
  LastRequest : option Z;
  ConditionalCount : Z
}.

(** [&EndpointStats{Path: path, StatusCodes: make(map[int]int64)}] *)
Definition new (path : string) : t :=
  {| Path := path; RequestCount := 0; ErrorCount := 0; TotalTimeMs := 0;
     MinTimeMs := 0; MaxTimeMs := 0; StatusCodes := Some ∅;
     FirstRequest := None; LastRequest := None; ConditionalCount := 0 |}.

(** The zero value [EndpointStats{}]. *)
Definition zero : t :=
  {| Path := ""; RequestCount := 0; ErrorCount := 0; TotalTimeMs := 0;
     MinTimeMs := 0; MaxTimeMs := 0; StatusCodes := None;
     FirstRequest := None; LastRequest := None; ConditionalCount := 0 |}.

(** [es.StatusCodes[statusCode]++] after the [nil] check. *)
Definition bump (statusCode : Z) (codes : option (gmap Z Z)) : gmap Z Z :=
  let m := default ∅ codes in
  <[statusCode := wrap64 (default 0 (m !! statusCode) + 1)]> m.

(** [RecordRequest]; [now] is the reading of [time.Now()]. *)
Definition RecordRequest (now : Z) (duration : Z) (statusCode : Z) (es : t)
  : t :=
  let durationMs := Milliseconds duration in
  {| Path := Path es;
     RequestCount := wrap64 (RequestCount es + 1);
     ErrorCount :=
       if 400 <=? statusCode then wrap64 (ErrorCount es + 1)
       else ErrorCount es;
     TotalTimeMs := wrap64 (TotalTimeMs es + durationMs);
     MinTimeMs :=
       if (MinTimeMs es =? 0) || (durationMs <? MinTimeMs es)
       then durationMs else MinTimeMs es;
     MaxTimeMs :=
       if MaxTimeMs es <? durationMs then durationMs else MaxTimeMs es;
     StatusCodes := Some (bump statusCode (StatusCodes es));
     FirstRequest :=
       match FirstRequest es with
       | None => Some now
       | Some first => Some first
       end;
     LastRequest := Some now;
     ConditionalCount := ConditionalCount es |}.

Definition IncrementConditionalCount (es : t) : t :=
  {| Path := Path es; RequestCount := RequestCount es;
     ErrorCount := ErrorCount es; TotalTimeMs := TotalTimeMs es;
     MinTimeMs := MinTimeMs es; MaxTimeMs := MaxTimeMs es;
     StatusCodes := StatusCodes es; FirstRequest := FirstRequest es;
     LastRequest := LastRequest es;
     ConditionalCount := wrap64 (ConditionalCount es + 1) |}.

Definition GetConditionalCount (es : t) : Z := ConditionalCount es.

End EndpointStats.

Module ServerStats.

(** [Endpoints] maps a path to the statistics object of that path. An
    object, once created, is never replaced, so the pointer the Go map
    holds is identified with the entry itself. [GetEndpointStats] turns
    a [nil] map into an empty one before anything reads it, so [nil] and
    empty are not told apart. *)
Record t : Type := mk {
  StartTime : Z;
  RequestCount : Z;
  ErrorCount : Z;
  Endpoints : gmap string EndpointStats.t
}.

Definition set_endpoints (ss : t) (e : gmap string EndpointStats.t) : t :=
  {| StartTime := StartTime ss; RequestCount := RequestCount ss;
     ErrorCount := ErrorCount ss; Endpoints := e |}.

(** [GetEndpointStats]: creates the entry when it is missing. The
    pointer it returns is the entry of [path] in the result. *)
Definition GetEndpointStats (path : string) (ss : t) : t :=
  match Endpoints ss !! path with
  | Some _ => ss
  | None =>
      set_endpoints ss (<[path := EndpointStats.new path]> (Endpoints ss))
  end.

(** Applying a method of [*EndpointStats] to the object of [path]. *)
Definition on_endpoint (path : string)
    (f : EndpointStats.t → EndpointStats.t) (ss : t) : t :=
  set_endpoints ss (alter f path (Endpoints ss)).

(** [RecordRequest] *)
Definition RecordRequest (path : string) (now duration statusCode : Z)
    (ss : t) : t :=
  let ss1 :=
    {| StartTime := StartTime ss;
       RequestCount := wrap64 (RequestCount ss + 1);
       ErrorCount :=
         if 400 <=? statusCode then wrap64 (ErrorCount ss + 1)
         else ErrorCount ss;
       Endpoints := Endpoints ss |} in
  on_endpoint path (EndpointStats.RecordRequest now duration statusCode)
              (GetEndpointStats path ss1).

End ServerStats.

(** ** Go library functions used by the static file handler

    [path/filepath] (Unix) and [strings.HasPrefix], modelled after their
    documented behaviour. A path is cut into its elements at every
    separator; [Clean] drops empty and [.] elements, lets a [..] cancel
    the element before it, drops a [..] that would climb above the root of
    a rooted path and keeps it at the front of a relative one. *)
Module filepath.

(** Cutting a string at the characters selected by [sep]. The result
    always has at least one element. *)
Fixpoint split_on (sep : ascii → bool) (s : string) : list string :=
  match s with
  | EmptyString => [""]
  | String c rest =>
      if sep c then "" :: split_on sep rest
      else match split_on sep rest with
           | e :: es => String c e :: es
           | [] => [String c ""]
           end
  end.

Definition is_slash (c : ascii) : bool := Ascii.eqb c "/"%char.

Definition split (s : string) : list string := split_on is_slash s.

(** [strings.Join(elems, "/")] *)
Fixpoint join (elems : list string) : string :=
  match elems with
  | [] => ""
  | [e] => e
  | e :: rest => e +:+ "/" +:+ join rest
  end.

(** [IsAbs]: on Unix, the path starts with a separator. *)
Definition IsAbs (path : string) : bool := String.prefix "/" path.

(** One element consumed by [Clean]; [out] holds the elements written so
    far, the last one first. *)
Definition clean_step (rooted : bool) (out : list string) (e : string)
  : list string :=
  if String.eqb e "" || String.eqb e "." then out
  else if String.eqb e ".." then
    match out with
    | top :: below =>
        if String.eqb top ".." then
          if rooted then out else ".." :: out
        else below
    | [] => if rooted then [] else [".."]
    end
  else e :: out.

Definition Clean (path : string) : string :=
  if String.eqb path "" then "."
  else
    let rooted := IsAbs path in
    let out := fold_left (clean_step rooted) (split path) [] in
    let body := join (rev out) in
    if rooted then "/" +:+ body
    else if String.eqb body "" then "." else body.

(** [Join] of two elements: empty elements are ignored, the result is
    cleaned, and joining only empty elements gives the empty string. *)
Definition Join (a b : string) : string :=
  if negb (String.eqb a "") then Clean (a +:+ "/" +:+ b)
  else if negb (String.eqb b "") then Clean b
  else "".

(** [Abs]; [wd] is the result of [os.Getwd], [None] when it fails. *)
Definition Abs (wd : option string) (path : string) : option string :=
  if IsAbs path then Some (Clean path)
  else match wd with
       | None => None
       | Some dir => Some (Join dir path)
       end.

End filepath.

(** [strings.HasPrefix] *)
Definition HasPrefix (s pre : string) : bool := String.prefix pre s.

(** The check at the head of [http.ServeFile]: does the URL path have a
    [..] element, elements being separated by [/] or [\]? *)
Definition containsDotDot (v : string) : bool :=
  existsb (String.eqb "..")
    (filepath.split_on
       (λ c, Ascii.eqb c "/"%char || Ascii.eqb c "\"%char) v).

(** [strings.HasSuffix] *)
Definition HasSuffix (s suffix : string) : bool :=
  (String.length suffix <=? String.length s)%nat
  && String.eqb (String.substring (String.length s - String.length suffix)
                           (String.length suffix) s)
                suffix.

(** [filepath.Base], and on Unix [path.Base]: the last element of the
    path, trailing separators dropped; [.] for the empty path and [/]
    for a path of separators only. *)
Definition filepath_Base (path : string) : string :=
  if String.eqb path "" then "."
  else default "/" (last (filter (λ e, e ≠ "") (filepath.split path))).

(** ** pkg/types: request log entries *)

Module RequestLogEntry.

Record t : Type := mk {
  Timestamp : Z;
  Method : string;
  Path : string;
  StatusCode : Z;
  Duration : Z;
  RemoteAddr : string
}.

End RequestLogEntry.

(** ** internal/server *)

(** [config.Server.StaticDir] *)
Definition Server_StaticDir (c : Config) : string := StaticDir (Server c).

Module server.

(** An incoming request. [Target] is [r.RequestURI], the target of the
    request line as the client sent it. [URLPath] is [r.URL.Path] and
    [EscapedPath] is [r.URL.EscapedPath()], the same path with its
    percent-encoding kept; the HTTP library hands over paths that are
    empty, [*], or begin with [/]. [RequestURI] is
    [r.URL.RequestURI()]. [QueryPath] is [r.URL.Query().Get("path")];
    [BodyAsConfig] and [BodyAsEndpoint] are what [json.Decode] makes of
    the body for the two shapes the control plane reads ([None]: the
    decoder fails); JSON objects inside them are already in the heap. *)
Record Request : Type := mkRequest {
  Method : string;
  Target : string;
  URLPath : string;
  EscapedPath : string;
  RequestURI : string;
  QueryPath : string;
  RemoteAddr : string;
  BodyAsConfig : option Config;
  BodyAsEndpoint : option (string * EndpointConfig)
}.

Inductive Body : Type :=
  | PlainText (msg : string)
  | ErrorText (msg : string) (err : error)
  | JSONObject (o : option (gmap string JValue))
  | JSONConfig (c : ConfigView)
  | JSONStats (s : ServerStats.t)
  | JSONRequestLog (l : list RequestLogEntry.t)
  | FileContent (name : string)
  | Location (target : string)
  | NoBody.

(** What the client receives: the status written and the body.
    [Location target] stands for a redirect: the [Location] header made
    of [target] and the query of the request, with the note that links
    to it where the library writes one. *)
Record HTTPResponse : Type := mkHTTPResponse {
  status : Z;
  body : Body
}.

(** [http.Error] *)
Definition http_Error (msg : string) (code : Z) : HTTPResponse :=
  {| status := code; body := PlainText msg |}.

(** Readings of the clock during one handler call: [now] for
    [time.Now()], [since] for [time.Since(start)] in nanoseconds. *)
Record Clock : Type := mkClock {
  now : Z;
  since : Z
}.

(** What opening a file to serve it gives: the file does not exist,
    permission is denied, another error, a directory, a regular file. *)
Inductive Opened : Type :=
  | NotExist
  | Permission
  | OpenFailed
  | Directory
  | Regular.

(** The operating system and the HTTP library as the handlers see them:
    the working directory, whether [ensureStaticDir] succeeds, what
    opening a file gives, the status with which the content of an
    opened file or directory is served (200, or what the conditional
    and range headers of the request make of it), and the status of a
    WebSocket upgrade. *)
Record Env : Type := mkEnv {
  Getwd : option string;
  ensure_ok : bool;
  open_file : string → Opened;
  content_status : Request → string → Z;
  upgrade_status : Z
}.

(** [localRedirect] of [net/http] *)
Definition localRedirect (newPath : string) : HTTPResponse :=
  {| status := 301; body := Location newPath |}.

(** [http.ServeFile]. A URL path with a [..] element is refused with
    400, and a URL path that ends in [/index.html] is redirected to its
    directory, both before the file is looked at. A file that cannot be
    opened is answered by [toHTTPError]; a directory asked for without
    a trailing slash is redirected to the path with one. *)
Definition ServeFile (env : Env) (r : Request) (name : string)
  : HTTPResponse :=
  if containsDotDot (URLPath r) then http_Error "invalid URL path" 400
  else if HasSuffix (URLPath r) "/index.html" then localRedirect "./"
  else
    let content :=
      {| status := content_status env r name; body := FileContent name |} in
    match open_file env name with
    | NotExist => http_Error "404 page not found" 404
    | Permission => http_Error "403 Forbidden" 403
    | OpenFailed => http_Error "500 Internal Server Error" 500
    | Directory =>
        if String.eqb (URLPath r) "" || negb (HasSuffix (URLPath r) "/")
        then localRedirect (filepath_Base (URLPath r) +:+ "/")
        else content
    | Regular => content
    end.

(** [Server]. [maxLogSize] is set once, to 1000, by [NewServer]. *)
Record Server : Type := mkServer {
  config : Manager;
  stats : ServerStats.t;
  requestLog : list RequestLogEntry.t;
  maxLogSize : Z
}.

Definition set_manager (s : Server) (m : Manager) : Server :=
  {| config := m; stats := stats s; requestLog := requestLog s;
     maxLogSize := maxLogSize s |}.

Definition set_stats (s : Server) (ss : ServerStats.t) : Server :=
  {| config := config s; stats := ss; requestLog := requestLog s;
     maxLogSize := maxLogSize s |}.

Definition set_requestLog (s : Server) (l : list RequestLogEntry.t)
  : Server :=
  {| config := config s; stats := stats s; requestLog := l;
     maxLogSize := maxLogSize s |}.

Definition manager_of (s : Server) : Manager := config s.

Definition heap_of (s : Server) : gmap positive (gmap string JValue) :=
  heap (config s).

(** [NewServer] *)
Definition NewServer (configPath : string) (startTime : Z) (r : FileRead)
    (h : gmap positive (gmap string JValue)) (d : Disk)
  : option Server :=
  match LoadConfig r (NewManager configPath h d) with
  | (_, Some _) => None
  | (m, None) =>
      Some {| config := m;
              stats := {| ServerStats.StartTime := startTime;
                          ServerStats.RequestCount := 0;
                          ServerStats.ErrorCount := 0;
                          ServerStats.Endpoints := ∅ |};
              requestLog := [];
              maxLogSize := 1000 |}
  end.

(** [GetRequestLog] *)
Definition GetRequestLog (s : Server) : list RequestLogEntry.t :=
  requestLog s.

(** [addToRequestLog]: prepend, then trim to [maxLogSize]. *)
Definition addToRequestLog (entry : RequestLogEntry.t) (s : Server)
  : Server :=
  let log := entry :: requestLog s in
  if maxLogSize s <? Z.of_nat (length log)
  then set_requestLog s (take (Z.to_nat (maxLogSize s)) log)
  else set_requestLog s log.

Definition record (path : string) (clk : Clock) (statusCode : Z)
    (s : Server) : Server :=
  set_stats s
    (ServerStats.RecordRequest path (now clk) (since clk) statusCode
                               (stats s)).

Definition success (message : string) : HTTPResponse :=
  {| status := 200;
     body := JSONObject
               (Some (<["status" := JStr "success"]>
                        {["message" := JStr message]})) |}.

(** [handleGetConfig] *)
Definition handleGetConfig (s : Server) : HTTPResponse :=
  match GetConfig (config s) with
  | None => http_Error "Configuration not loaded" 500
  | Some c =>
      {| status := 200;
         body := JSONConfig (view_config (heap (config s)) c) |}
  end.

(** [handleUpdateConfig] *)
Definition handleUpdateConfig (r : Request) (s : Server)
  : Server * HTTPResponse :=
  match BodyAsConfig r with
  | None => (s, http_Error "Invalid JSON" 400)
  | Some newConfig =>
      match UpdateConfig newConfig (config s) with
      | (m, Some err) =>
          (set_manager s m,
           {| status := 400;
              body := ErrorText "Failed to update configuration" err |})
      | (m, None) => (set_manager s m, success "Configuration updated")
      end
  end.

(** [handleAddEndpoint] *)
Definition handleAddEndpoint (r : Request) (s : Server)
  : Server * HTTPResponse :=
  match BodyAsEndpoint r with
  | None => (s, http_Error "Invalid JSON" 400)
  | Some (path, endpointConfig) =>
      if String.eqb path "" then (s, http_Error "Path is required" 400)
      else
        match UpdateEndpoint path endpointConfig (config s) with
        | (m, Some err) =>
            (set_manager s m,
             {| status := 400;
                body := ErrorText "Failed to add endpoint" err |})
        | (m, None) => (set_manager s m, success "Endpoint added")
        end
  end.

(** [handleRemoveEndpoint] *)
Definition handleRemoveEndpoint (r : Request) (s : Server)
  : Server * HTTPResponse :=
  let path := QueryPath r in
  if String.eqb path ""
  then (s, http_Error "Path parameter is required" 400)
  else
    match RemoveEndpoint path (config s) with
    | (m, Some err) =>
        (set_manager s m,
         {| status := 400;
            body := ErrorText "Failed to remove endpoint" err |})
    | (m, None) => (set_manager s m, success "Endpoint removed")
    end.

(** [handleConfig]: the deferred call records the request once the
    method handler is done. *)
Definition handleConfig (clk : Clock) (r : Request) (s : Server)
  : Server * HTTPResponse :=
  let '(s', resp) :=
    if String.eqb (Method r) "GET" then (s, handleGetConfig s)
    else if String.eqb (Method r) "PUT" then handleUpdateConfig r s
    else if String.eqb (Method r) "POST" then handleAddEndpoint r s
    else if String.eqb (Method r) "DELETE" then handleRemoveEndpoint r s
    else (s, http_Error "Method not allowed" 405) in
  (record "/config" clk 200 s', resp).

(** [handleStats] *)
Definition handleStats (clk : Clock) (s : Server) : Server * HTTPResponse :=
  (record "/stats" clk 200 s,
   {| status := 200; body := JSONStats (stats s) |}).

(** [handleWebSocket]: the upgrade and the message loop leave the
    statistics and the request log alone. *)
Definition handleWebSocket (env : Env) (s : Server) : Server * HTTPResponse :=
  (s, {| status := upgrade_status env; body := NoBody |}).

(** [handleRequestLog] *)
Definition handleRequestLog (r : Request) (s : Server)
  : Server * HTTPResponse :=
  if negb (String.eqb (Method r) "GET")
  then (s, http_Error "Method not allowed" 405)
  else (s, {| status := 200; body := JSONRequestLog (GetRequestLog s) |}).

(** [w.WriteHeader(code)]: the HTTP library panics on a code outside
    100..999. *)
Definition valid_header_code (code : Z) : bool :=
  (100 <=? code) && (code <=? 999).

Definition error_body (msg : string) : Body :=
  JSONObject (Some {["error" := JStr msg]}).

(** The counter of [path] after [GetEndpointStats] created its object. *)
Definition conditional_count (path : string) (ss : ServerStats.t) : Z :=
  from_option EndpointStats.GetConditionalCount 0
              (ServerStats.Endpoints ss !! path).

(** [handleDynamicEndpoint]. The result has no response when the handler
    panics (a zero [ErrorEveryN], or a status code the HTTP library
    refuses); the statistics touched before the panic stay touched. An
    [int] is 64 bits wide, so [int64(config.ErrorEveryN)] is the value
    itself. *)
Definition handleDynamicEndpoint (clk : Clock) (r : Request)
    (config : EndpointConfig) (s : Server) : Server * option HTTPResponse :=
  let path := URLPath r in
  let s0 := set_stats s (ServerStats.GetEndpointStats path (stats s)) in
  let '(s1, decided) :=
    if String.eqb (Type_ config) "error" then
      (s0, Some (StatusCode config, error_body (Message config)))
    else if String.eqb (Type_ config) "delay" then
      (s0, Some (200, JSONObject (deref (heap_of s0)
                                        (Response config))))
    else if String.eqb (Type_ config) "conditional_error" then
      let s1 :=
        set_stats s0
          (ServerStats.on_endpoint path
             EndpointStats.IncrementConditionalCount (stats s0)) in
      let count := conditional_count path (stats s1) in
      match go_rem count (ErrorEveryN config) with
      | None => (s1, None)
      | Some rem =>
          if rem =? 0 then
            (s1, Some (StatusCode config,
                       error_body "Conditional error triggered"))
          else
            (s1, Some (200, JSONObject (deref (heap_of s1)
                                              (SuccessResponse config))))
      end
    else (s0, Some (500, error_body "Unknown endpoint type")) in
  match decided with
  | None => (s1, None)
  | Some (statusCode, responseData) =>
      if valid_header_code statusCode then
        (record path clk statusCode s1,
         Some {| status := statusCode; body := responseData |})
      else (s1, None)
  end.

(** [handleStaticFile] *)
Definition handleStaticFile (env : Env) (clk : Clock) (r : Request)
    (staticDir : string) (s : Server) : Server * HTTPResponse :=
  if negb (ensure_ok env) then
    (record (URLPath r) clk 500 s, http_Error "Internal server error" 500)
  else
    let cleanPath := filepath.Clean (URLPath r) in
    let cleanPath :=
      if String.eqb cleanPath "/" then "/index.html" else cleanPath in
    let filePath := filepath.Join staticDir cleanPath in
    match filepath.Abs (Getwd env) staticDir with
    | None =>
        (record (URLPath r) clk 500 s,
         http_Error "Internal server error" 500)
    | Some absStaticDir =>
        match filepath.Abs (Getwd env) filePath with
        | None =>
            (record (URLPath r) clk 500 s,
             http_Error "Internal server error" 500)
        | Some absFilePath =>
            if negb (HasPrefix absFilePath absStaticDir) then
              (record (URLPath r) clk 403 s, http_Error "Forbidden" 403)
            else
              (record (URLPath r) clk 200 s,
               ServeFile env r filePath)
        end
    end.

(** [handleRequest] *)
Definition handleRequest (env : Env) (clk : Clock) (r : Request)
    (s : Server) : Server * option HTTPResponse :=
  match GetConfig (manager_of s) with
  | None =>
      (record (URLPath r) clk 500 s,
       Some (http_Error "Server configuration not loaded" 500))
  | Some config =>
      match Endpoints config ≫= (λ table, table !! URLPath r) with
      | Some endpointConfig => handleDynamicEndpoint clk r endpointConfig s
      | None =>
          let '(s', resp) :=
            handleStaticFile env clk r (Server_StaticDir config) s in
          (s', Some resp)
      end
  end.

(** [cleanPath] of [net/http]: the canonical form of a request path. *)
Definition cleanPath (p : string) : string :=
  if String.eqb p "" then "/"
  else
    let p := if filepath.IsAbs p then p else String "/" p in
    let np := filepath.Clean p in
    if HasSuffix p "/" && negb (String.eqb np "/") then
      if (String.length p =? String.length np + 1)%nat && HasPrefix p np
      then p
      else np +:+ "/"
    else np.

(** [http.Redirect] with [http.StatusMovedPermanently] *)
Definition MovedPermanently (target : string) : HTTPResponse :=
  {| status := 301; body := Location target |}.

(** [s.mux], the [http.ServeMux] holding the routes of [setupRoutes]:
    four patterns of one segment and the catch-all [/]. A request with
    the target [*] is refused. The path of every other request but a
    [CONNECT] is cleaned, and when that changes it the request is
    redirected to the clean path; a path that no pattern matches as it
    is but one would with a slash added, which here is the empty path
    alone, is redirected there. No handler runs in these cases. The mux
    (that of Go 1.22 and later; the project builds with Go 1.24) cleans
    the escaped path and matches its segments once they are unescaped,
    which for these patterns is a comparison of [r.URL.Path]. *)
Definition route (env : Env) (clk : Clock) (r : Request) (s : Server)
  : Server * option HTTPResponse :=
  let some '(s', resp) := (s', Some resp) in
  if String.eqb (Target r) "*" then
    (s, Some {| status := 400; body := NoBody |})
  else
    let escapedPath := EscapedPath r in
    let path :=
      if String.eqb (Method r) "CONNECT" then escapedPath
      else cleanPath escapedPath in
    if String.eqb path "" then
      (s, Some (MovedPermanently (cleanPath (URLPath r) +:+ "/")))
    else if negb (String.eqb path escapedPath) then
      (s, Some (MovedPermanently path))
    else if String.eqb (URLPath r) "/config" then some (handleConfig clk r s)
    else if String.eqb (URLPath r) "/ws" then some (handleWebSocket env s)
    else if String.eqb (URLPath r) "/stats" then some (handleStats clk s)
    else if String.eqb (URLPath r) "/requestlog"
    then some (handleRequestLog r s)
    else handleRequest env clk r s.

(** [logRequestMiddleware] around the routes: the status the wrapper
    captured goes into the request log. [outer] holds the clock readings
    of the middleware itself. A panicking handler leaves no entry. *)
Definition ServeHTTP (env : Env) (outer clk : Clock) (r : Request)
    (s : Server) : Server * option HTTPResponse :=
  match route env clk r s with
  | (s', None) => (s', None)
  | (s', Some resp) =>
      let entry :=
        {| RequestLogEntry.Timestamp := now outer;
           RequestLogEntry.Method := Method r;
           RequestLogEntry.Path := RequestURI r;
           RequestLogEntry.StatusCode := status resp;
           RequestLogEntry.Duration := Milliseconds (since outer);
           RequestLogEntry.RemoteAddr := RemoteAddr r |} in
      (addToRequestLog entry s', Some resp)
  end.

End server.


(** * Further parts of the code *)

(** ** internal/config: the file watcher *)

Module Watcher.

(** [Watcher]. The channel [stopChan] is made once, by [NewWatcher];
    [stopClosed] tells whether it has been closed. *)
Record t : Type := mk {
  isRunning : bool;
  stopClosed : bool
}.

Inductive start_error : Type :=
  | NewWatcherFailed
  | AddFailed.

(** [NewWatcher] *)
Definition NewWatcher : t := {| isRunning := false; stopClosed := false |}.

(** [Start]; [new_ok] and [add_ok] tell whether [fsnotify.NewWatcher]
    and [w.watcher.Add(configDir)] succeed. *)
Definition Start (new_ok add_ok : bool) (w : t) : t * option start_error :=
  if isRunning w then (w, None)
  else if negb new_ok then (w, Some NewWatcherFailed)
  else if negb add_ok then
    ({| isRunning := false; stopClosed := stopClosed w |}, Some AddFailed)
  else ({| isRunning := true; stopClosed := stopClosed w |}, None).

(** [Stop]. Closing a channel that is closed already panics: there is no
    result then. *)
Definition Stop (w : t) : option t :=
  if negb (isRunning w) then Some w
  else if stopClosed w then None
  else Some {| isRunning := false; stopClosed := true |}.

Definition IsRunning (w : t) : bool := isRunning w.

(** The operations of [fsnotify.Op], a bit set. *)
Definition Create : Z := 1.
Definition Write : Z := 2.
Definition Remove : Z := 4.
Definition Rename : Z := 8.
Definition Chmod : Z := 16.

(** [event.Op&flag == flag] *)
Definition has (op flag : Z) : bool := Z.land op flag =? flag.

(** An event received from [w.watcher.Events], together with what the
    loop body reads while handling it: the clock when the debounce test
    runs, what [LoadConfig] finds in the file, and the clock after the
    reload. *)
Record Event : Type := mkEvent {
  Name : string;
  Op : Z;
  clock_at : Z;
  found : FileRead;
  clock_after : Z
}.

(** What one [select] of the loop yields. *)
Inductive Received : Type :=
  | Stopped
  | EventsClosed
  | ErrorsClosed
  | WatcherError
  | GotEvent (event : Event).

(** [500 * time.Millisecond] *)
Definition debounceInterval : Z := 500 * 1000000.

(** [time.Since(lastReload)]; [lastReload] is [None] while it is the
    zero time, whose distance to now is the largest duration. *)
Definition Since (lastReload : option Z) (now : Z) : Z :=
  match lastReload with
  | None => max_int64
  | Some t => now - t
  end.

(** [reloadConfig]: the error of [LoadConfig] is logged and dropped. *)
Definition reloadConfig (found : FileRead) (m : Manager) : Manager :=
  (LoadConfig found m).1.

(** The body of the loop for one event. *)
Definition handle_event (event : Event) (lastReload : option Z)
    (m : Manager) : option Z * Manager :=
  if negb (String.eqb (filepath_Base (Name event))
                      (filepath_Base (configPath m)))
  then (lastReload, m)
  else if Since lastReload (clock_at event) <? debounceInterval
  then (lastReload, m)
  else if has (Op event) Write
  then (Some (clock_after event), reloadConfig (found event) m)
  else if has (Op event) Create
  then (Some (clock_after event), reloadConfig (found event) m)
  else (lastReload, m).

(** [watch]: the loop over what the successive [select]s yield; it ends
    with the stop signal or a closed channel. *)
Fixpoint watch_from (received : list Received) (lastReload : option Z)
    (m : Manager) : option Z * Manager :=
  match received with
  | [] => (lastReload, m)
  | Stopped :: _ => (lastReload, m)
  | EventsClosed :: _ => (lastReload, m)
  | ErrorsClosed :: _ => (lastReload, m)
  | WatcherError :: rest => watch_from rest lastReload m
  | GotEvent event :: rest =>
      let '(lastReload', m') := handle_event event lastReload m in
      watch_from rest lastReload' m'
  end.

Definition watch (received : list Received) (m : Manager)
  : option Z * Manager :=
  watch_from received None m.

End Watcher.

(** ** internal/server: starting and stopping *)

Module lifecycle.

(** The fields of [Server] that [Start] and [Stop] work on: the running
    flag, the configuration watcher, whether an [http.Server] has been
    made, and the number of WebSocket connections held. *)
Record t : Type := mk {
  isRunning : bool;
  configWatcher : Watcher.t;
  httpServer : bool;
  wsConnections : nat
}.

Inductive error : Type :=
  | AlreadyRunning
  | NoConfigurationLoaded
  | WatcherStartFailed (e : Watcher.start_error)
  | ShutdownFailed.

(** The state [NewServer] leaves. *)
Definition new : t :=
  {| isRunning := false; configWatcher := Watcher.NewWatcher;
     httpServer := false; wsConnections := 0 |}.

(** [Start]; [m] is the server's configuration manager. *)
Definition Start (new_ok add_ok : bool) (m : Manager) (l : t)
  : t * option error :=
  if isRunning l then (l, Some AlreadyRunning)
  else
    match GetConfig m with
    | None => (l, Some NoConfigurationLoaded)
    | Some _ =>
        match Watcher.Start new_ok add_ok (configWatcher l) with
        | (w, Some err) =>
            ({| isRunning := false; configWatcher := w; httpServer := true;
                wsConnections := wsConnections l |},
             Some (WatcherStartFailed err))
        | (w, None) =>
            ({| isRunning := true; configWatcher := w; httpServer := true;
                wsConnections := wsConnections l |}, None)
        end
    end.

(** [Stop]; [shutdown_ok] tells whether [httpServer.Shutdown] succeeds
    within its ten seconds. No result when the watcher's [Stop] panics. *)
Definition Stop (shutdown_ok : bool) (l : t) : option (t * option error) :=
  if negb (isRunning l) then Some (l, None)
  else
    match Watcher.Stop (configWatcher l) with
    | None => None
    | Some w =>
        if httpServer l && negb shutdown_ok then
          Some ({| isRunning := true; configWatcher := w;
                   httpServer := httpServer l; wsConnections := 0 |},
                Some ShutdownFailed)
        else
          Some ({| isRunning := false; configWatcher := w;
                   httpServer := httpServer l; wsConnections := 0 |}, None)
    end.

Definition IsRunning (l : t) : bool := isRunning l.

End lifecycle.

(** * Notions used to state the properties *)

(** ** Validation *)

Definition status_in_error_range (c : Z) : Prop := 400 ≤ c ≤ 599.

(** The tags and field constraints under which [validateEndpointConfig]
    returns [nil]. *)
Definition accepted (e : EndpointConfig) : Prop :=
  (Type_ e = "error" ∧ status_in_error_range (StatusCode e))
  ∨ (Type_ e = "delay" ∧ 0 ≤ DelayMs e)
  ∨ (Type_ e = "conditional_error"
     ∧ 1 ≤ ErrorEveryN e ∧ status_in_error_range (StatusCode e))
  ∨ Type_ e = "static".

(** ** Runs *)

(** Appending the entries of [entries] to the request log one after the
    other, the first of the list first. *)
Definition append_all (entries : list RequestLogEntry.t) (s : server.Server)
  : server.Server :=
  fold_left (λ s e, server.addToRequestLog e s) entries s.

(** ** Concrete states *)

Definition writable_disk : Disk :=
  {| mkdir_ok := true; write_ok := true; write_opens := true;
     file := None |}.

(** A disk on which the configuration file cannot be written. *)
Definition readonly_disk : Disk :=
  {| mkdir_ok := true; write_ok := false; write_opens := false;
     file := None |}.

(** The manager right after a first [LoadConfig] with no file on disk:
    it holds the default configuration. *)
Definition default_manager : Manager :=
  (LoadConfig FileMissing
     (NewManager "configs/default.json" ∅ writable_disk)).1.

(** The same manager once the disk has become read-only. *)
Definition default_manager_readonly : Manager :=
  {| configPath := configPath default_manager;
     config := config default_manager;
     heap := heap default_manager;
     disk := readonly_disk |}.

Definition default_server : server.Server :=
  {| server.config := default_manager;
     server.stats := {| ServerStats.StartTime := 0;
                        ServerStats.RequestCount := 0;
                        ServerStats.ErrorCount := 0;
                        ServerStats.Endpoints := ∅ |};
     server.requestLog := [];
     server.maxLogSize := 1000 |}.

Definition sample_entry (n : Z) : RequestLogEntry.t :=
  {| RequestLogEntry.Timestamp := n;
     RequestLogEntry.Method := "GET";
     RequestLogEntry.Path := "/api/error";
     RequestLogEntry.StatusCode := 500;
     RequestLogEntry.Duration := 0;
     RequestLogEntry.RemoteAddr := "127.0.0.1:4000" |}.

(** ** Statistics of one endpoint *)

(** A recorded request: the clock reading, the elapsed [time.Duration]
    and the status code passed to [RecordRequest]. *)
Record Recorded : Type := mkRecorded {
  rec_now : Z;
  rec_duration : Z;
  rec_status : Z
}.

Definition record_one (es : EndpointStats.t) (r : Recorded)
  : EndpointStats.t :=
  EndpointStats.RecordRequest (rec_now r) (rec_duration r) (rec_status r) es.

(** A sequence of [RecordRequest] calls on one statistics object. *)
Definition record_all (reqs : list Recorded) (es : EndpointStats.t)
  : EndpointStats.t :=
  fold_left record_one reqs es.

(** The sum of the counts of a status histogram. *)
Definition hist_total (codes : gmap Z Z) : Z :=
  map_fold (λ _ count acc, count + acc) 0 codes.

(** What stays true of a statistics object while requests are recorded. *)
Record stats_inv (n : Z) (errs : Z) (es : EndpointStats.t) : Prop := {
  inv_requests : EndpointStats.RequestCount es = n;
  inv_errors : EndpointStats.ErrorCount es = errs;
  inv_hist : hist_total (default ∅ (EndpointStats.StatusCodes es)) = n;
  inv_hist_nonneg :
    map_Forall (λ _ v, 0 ≤ v) (default ∅ (EndpointStats.StatusCodes es));
  inv_min_max : EndpointStats.MinTimeMs es ≤ EndpointStats.MaxTimeMs es
}.

(** How many of the recorded requests have a status of 400 or more. *)
Definition errors_among (reqs : list Recorded) : Z :=
  Z.of_nat (length (filter (λ r, 400 ≤ rec_status r) reqs)).

(** The least elapsed time, in milliseconds, of a non-empty sequence of
    recorded requests. *)
Definition least_ms (first : Recorded) (others : list Recorded) : Z :=
  fold_left (λ m r, Z.min m (Milliseconds (rec_duration r))) others
            (Milliseconds (rec_duration first)).

Definition ms (n : Z) : Z := n * 1000000.

Definition took (n : Z) : Recorded :=
  {| rec_now := 0; rec_duration := ms n; rec_status := 200 |}.

(** ** The configuration manager *)

(** The file system refuses one of the steps of [saveConfigToFile]. *)
Definition persist_fails (m : Manager) : Prop :=
  mkdir_ok (disk m) = false ∨ write_ok (disk m) = false.

(** The endpoint registered under [path] in the live configuration. *)
Definition live_endpoint (m : Manager) (path : string)
  : option EndpointConfig :=
  match config m with
  | Some {| Endpoints := Some table |} => table !! path
  | _ => None
  end.

(** What readers of the live configuration observe. *)
Definition live_view (m : Manager) : option ConfigView :=
  view_config (heap m) <$> config m.

(** [cfg.Endpoints[path].Response[key] = value], run by whoever holds
    [cfg]; the only thing it writes to is the JSON object. *)
Definition set_response_key (cfg : Config) (path key : string)
    (value : JValue) (h : gmap positive (gmap string JValue))
  : option (gmap positive (gmap string JValue)) :=
  match Endpoints cfg with
  | Some table =>
      match table !! path with
      | Some e => store_key h (Response e) key value
      | None => None
      end
  | None => None
  end.

(** The text under [key] in the [response] object of the live endpoint
    at [path]. *)
Definition live_response_text (m : Manager) (path key : string)
  : option JValue :=
  match live_view m with
  | Some {| v_Endpoints := Some table |} =>
      match table !! path with
      | Some {| v_Response := Some o |} => o !! key
      | _ => None
      end
  | _ => None
  end.

Definition sample_error_endpoint : EndpointConfig :=
  {| Type_ := "error"; StatusCode := 404; Message := "t"; DelayMs := 0;
     Response := None; ErrorEveryN := 0; SuccessResponse := None |}.

(** ** The server *)

(** The statistics object of [path], if it has been created. *)
Definition endpoint_stats (s : server.Server) (path : string)
  : option EndpointStats.t :=
  ServerStats.Endpoints (server.stats s) !! path.

Definition sample_env : server.Env :=
  {| server.Getwd := Some "/srv/app";
     server.ensure_ok := true;
     server.open_file := λ _, server.NotExist;
     server.content_status := λ _ _, 200;
     server.upgrade_status := 101 |}.

Definition sample_clock : server.Clock :=
  {| server.now := 1000; server.since := ms 2 |}.

(** [PUT /config] with a configuration whose port is 70000. *)
Definition put_invalid_config : server.Request :=
  {| server.Method := "PUT";
     server.Target := "/config";
     server.URLPath := "/config";
     server.EscapedPath := "/config";
     server.RequestURI := "/config";
     server.QueryPath := "";
     server.RemoteAddr := "127.0.0.1:4000";
     server.BodyAsConfig :=
       Some {| Server := {| Port := 70000; Host := "0.0.0.0";
                            StaticDir := "./static" |};
               Endpoints := Some ∅ |};
     server.BodyAsEndpoint := None |}.

(** A body-less request. *)
Definition request (method path : string) : server.Request :=
  {| server.Method := method;
     server.Target := path;
     server.URLPath := path;
     server.EscapedPath := path;
     server.RequestURI := path;
     server.QueryPath := "";
     server.RemoteAddr := "127.0.0.1:4000";
     server.BodyAsConfig := None;
     server.BodyAsEndpoint := None |}.

(** ** Successive requests *)

(** Requests handled one after the other by [handleRequest], each with
    its own clock readings; the responses come in the order of the
    requests. *)
Fixpoint serve_all (env : server.Env)
    (reqs : list (server.Clock * server.Request)) (s : server.Server)
  : server.Server * list (option server.HTTPResponse) :=
  match reqs with
  | [] => (s, [])
  | (clk, r) :: rest =>
      let '(s1, resp) := server.handleRequest env clk r s in
      let '(s2, resps) := serve_all env rest s1 in
      (s2, resp :: resps)
  end.

(** The error response of a [conditional_error] endpoint. *)
Definition conditional_error_response (e : EndpointConfig)
  : server.HTTPResponse :=
  {| server.status := StatusCode e;
     server.body := server.error_body "Conditional error triggered" |}.

(** Its success response: status 200 with the [success_response] JSON. *)
Definition conditional_success_response (e : EndpointConfig)
    (h : gmap positive (gmap string JValue)) : server.HTTPResponse :=
  {| server.status := 200;
     server.body := server.JSONObject (deref h (SuccessResponse e)) |}.

(** The response due at the 1-indexed position [n]. *)
Definition response_at (e : EndpointConfig)
    (h : gmap positive (gmap string JValue)) (n : Z) : server.HTTPResponse :=
  if n `mod` ErrorEveryN e =? 0 then conditional_error_response e
  else conditional_success_response e h.

(** Recognising the error response among the responses received. *)
Definition is_error_response (e : EndpointConfig)
    (resp : option server.HTTPResponse) : bool :=
  match resp with
  | Some {| server.status := st; server.body := server.JSONObject (Some o) |} =>
      (st =? StatusCode e)
      && bool_decide (o = {[ "error" := JStr "Conditional error triggered" ]})
  | _ => false
  end.

Definition count_errors (e : EndpointConfig)
    (resps : list (option server.HTTPResponse)) : Z :=
  Z.of_nat (length (filter (λ r, is_error_response e r = true) resps)).

(** The configuration the server's manager holds. *)
Definition live_config (s : server.Server) : option Config :=
  config (server.manager_of s).

Definition default_config : Config := (createDefaultConfig ∅).1.

Definition flaky_endpoint : EndpointConfig :=
  {| Type_ := "conditional_error"; StatusCode := 503; Message := "";
     DelayMs := 0; Response := None; ErrorEveryN := 3;
     SuccessResponse := Some 2%positive |}.

(** ** Paths *)







(** * Further notions *)

(** ** Valid configurations *)

(** Every entry has a non-empty path and an endpoint that passes
    [validateEndpointConfig]. *)
Definition valid_table (table : gmap string EndpointConfig) : Prop :=
  map_Forall (λ path e, path ≠ "" ∧ validateEndpointConfig e = None) table.

Definition valid_config (c : Config) : Prop :=
  1 ≤ Port (Server c) ≤ 65535
  ∧ Host (Server c) ≠ ""
  ∧ StaticDir (Server c) ≠ ""
  ∧ valid_table (default ∅ (Endpoints c)).

(** The configuration the manager holds, if any, passes [validateConfig]. *)
Definition valid_live (m : Manager) : Prop :=
  ∀ c, config m = Some c → validateConfig c = None.

(** The configuration file holds, written in full, what readers of the
    live configuration observe. *)
Definition synced (m : Manager) : Prop :=
  file (disk m) = (Complete <$> live_view m).

(** The manager after a [saveConfigToFile] that failed: the file is torn
    when the write got as far as opening it, and untouched when the
    directory could not be made or the file could not be opened. *)
Definition after_failed_save (m : Manager) : Manager :=
  if mkdir_ok (disk m) && write_opens (disk m) then set_file m Torn else m.

(** A disk that runs full: the configuration file can be opened, but the
    write fails. *)
Definition full_disk : Disk :=
  {| mkdir_ok := true; write_ok := false; write_opens := true;
     file := Some (Complete (view_config ∅ default_config)) |}.

(** The manager holding the default configuration on that disk. *)
Definition default_manager_full : Manager :=
  {| configPath := configPath default_manager;
     config := config default_manager;
     heap := heap default_manager;
     disk := full_disk |}.

(** The endpoint table of the live configuration; [None] when no
    configuration is loaded, [Some None] for a nil table. *)
Definition live_table (m : Manager)
  : option (option (gmap string EndpointConfig)) :=
  Endpoints <$> config m.

(** ** Statistics of the whole server *)

(** One call of [ServerStats.RecordRequest]: the path and what is
    recorded. *)
Definition record_request (ss : ServerStats.t) (pr : string * Recorded)
  : ServerStats.t :=
  ServerStats.RecordRequest pr.1 (rec_now pr.2) (rec_duration pr.2)
                            (rec_status pr.2) ss.

Definition record_requests (reqs : list (string * Recorded))
    (ss : ServerStats.t) : ServerStats.t :=
  fold_left record_request reqs ss.

(** [&types.ServerStats{StartTime: ..., Endpoints: make(...)}] *)
Definition new_stats (startTime : Z) : ServerStats.t :=
  {| ServerStats.StartTime := startTime;
     ServerStats.RequestCount := 0;
     ServerStats.ErrorCount := 0;
     ServerStats.Endpoints := ∅ |}.

(** The sum of a measure over the statistics objects of all paths. *)
Definition sum_over (g : EndpointStats.t → Z)
    (eps : gmap string EndpointStats.t) : Z :=
  map_fold (λ _ es acc, g es + acc) 0 eps.

(** What was recorded for one path, in order. *)
Definition recorded_for (path : string) (reqs : list (string * Recorded))
  : list Recorded :=
  (filter (λ pr : string * Recorded, pr.1 = path) reqs).*2.

(** The elapsed times, in milliseconds, of the recorded requests. *)
Definition elapsed_ms (reqs : list Recorded) : list Z :=
  (λ r, Milliseconds (rec_duration r)) <$> reqs.

Definition sum_list (l : list Z) : Z := foldr Z.add 0 l.

(** ** Requests through the middleware *)

(** The entry [logRequestMiddleware] builds for an answered request. *)
Definition log_entry (outer : server.Clock) (r : server.Request)
    (resp : server.HTTPResponse) : RequestLogEntry.t :=
  {| RequestLogEntry.Timestamp := server.now outer;
     RequestLogEntry.Method := server.Method r;
     RequestLogEntry.Path := server.RequestURI r;
     RequestLogEntry.StatusCode := server.status resp;
     RequestLogEntry.Duration := Milliseconds (server.since outer);
     RequestLogEntry.RemoteAddr := server.RemoteAddr r |}.

(** Requests served one after the other through [ServeHTTP]; each comes
    with the clock readings of the middleware and of the handler. *)
Fixpoint serve_http_all (env : server.Env)
    (reqs : list (server.Clock * server.Clock * server.Request))
    (s : server.Server)
  : server.Server * list (option server.HTTPResponse) :=
  match reqs with
  | [] => (s, [])
  | (outer, clk, r) :: rest =>
      let '(s1, resp) := server.ServeHTTP env outer clk r s in
      let '(s2, resps) := serve_http_all env rest s1 in
      (s2, resp :: resps)
  end.

(** The entries due for a run: one per answered request, in the order of
    the requests. *)
Fixpoint logged (reqs : list (server.Clock * server.Clock * server.Request))
    (resps : list (option server.HTTPResponse)) : list RequestLogEntry.t :=
  match reqs, resps with
  | (outer, _, r) :: reqs', Some resp :: resps' =>
      log_entry outer r resp :: logged reqs' resps'
  | _ :: reqs', None :: resps' => logged reqs' resps'
  | _, _ => []
  end.

(** ** The watcher *)

(** The event is for the configuration file, is not debounced and
    carries the write or the create bit. *)
Definition triggers (event : Watcher.Event) (lastReload : option Z)
    (m : Manager) : bool :=
  String.eqb (filepath_Base (Watcher.Name event))
             (filepath_Base (configPath m))
  && negb (Watcher.Since lastReload (Watcher.clock_at event)
           <? Watcher.debounceInterval)
  && (Watcher.has (Watcher.Op event) Watcher.Write
      || Watcher.has (Watcher.Op event) Watcher.Create).

(** Nothing received makes the loop reload. *)
Definition all_ignored (received : list Watcher.Received)
    (lastReload : option Z) (m : Manager) : Prop :=
  Forall (λ item,
            match item with
            | Watcher.GotEvent event => triggers event lastReload m = false
            | _ => True
            end) received.

(** How many times the loop calls [reloadConfig]. *)
Fixpoint reload_count (received : list Watcher.Received)
    (lastReload : option Z) (m : Manager) : nat :=
  match received with
  | Watcher.GotEvent event :: rest =>
      let '(lastReload', m') := Watcher.handle_event event lastReload m in
      (if triggers event lastReload m then 1 else 0)%nat
      + reload_count rest lastReload' m'
  | Watcher.WatcherError :: rest => reload_count rest lastReload m
  | _ => 0%nat
  end.

(** Every event received has its two clock readings in order and its
    debounce test within the 500 ms that start at [t0]. *)
Definition within_window (t0 : Z) (received : list Watcher.Received) : Prop :=
  Forall (λ item,
            match item with
            | Watcher.GotEvent event =>
                t0 ≤ Watcher.clock_at event
                ∧ Watcher.clock_at event ≤ Watcher.clock_after event
                ∧ Watcher.clock_at event < t0 + Watcher.debounceInterval
            | _ => True
            end) received.

Definition write_event (name : string) (at_ after_ : Z) (found : FileRead)
  : Watcher.Event :=
  {| Watcher.Name := name; Watcher.Op := Watcher.Write;
     Watcher.clock_at := at_; Watcher.found := found;
     Watcher.clock_after := after_ |}.

(** ** Requests to an [error] endpoint *)

(** What the dynamic handler records for a request answered with
    [statusCode]. *)
Definition recorded_as (path : string) (statusCode : Z)
    (cr : server.Clock * server.Request) : string * Recorded :=
  (path, {| rec_now := server.now cr.1;
            rec_duration := server.since cr.1;
            rec_status := statusCode |}).

(** The response of an [error] endpoint. *)
Definition error_response (e : EndpointConfig) : server.HTTPResponse :=
  {| server.status := StatusCode e;
     server.body := server.error_body (Message e) |}.

(** The server-wide counters agree with the per-path statistics: [n]
    requests and [k] errors in total, the same as the sums over the
    paths, and no path with more errors than requests. *)
Record totals_inv (n k : Z) (ss : ServerStats.t) : Prop := {
  tot_requests : ServerStats.RequestCount ss = n;
  tot_errors : ServerStats.ErrorCount ss = k;
  tot_sum_requests :
    sum_over EndpointStats.RequestCount (ServerStats.Endpoints ss) = n;
  tot_sum_errors :
    sum_over EndpointStats.ErrorCount (ServerStats.Endpoints ss) = k;
  tot_each :
    map_Forall (λ _ es, 0 ≤ EndpointStats.ErrorCount es
                        ∧ EndpointStats.ErrorCount es
                          ≤ EndpointStats.RequestCount es)
               (ServerStats.Endpoints ss)
}.

(** * Properties *)

Example clean_tests :
  map filepath.Clean
      ["abc"; "."; ".."; "../../abc"; "/"; ""; "abc/def/"; "./";
       "abc//def//ghi"; "//abc//"; "abc/./def"; "abc/def/../ghi/../jkl";
       "abc/def/../.."; "/abc/def/../../.."; "abc/def/../../..";
       "abc/def/../../../ghi/jkl/../../../mno"; "/../abc";
       "abc/../../././../def"; "/../etc/passwd"]
  = ["abc"; "."; ".."; "../../abc"; "/"; "."; "abc/def"; ".";
     "abc/def/ghi"; "/abc"; "abc/def"; "abc/jkl";
     "."; "/"; "..";
     "../../mno"; "/abc";
     "../../def"; "/etc/passwd"].
Proof. reflexivity. Qed.

Example join_tests :
  (filepath.Join "./static" "/index.html", filepath.Join "" "/a",
   filepath.Join "a" "", filepath.Join "" "",
   filepath.Abs (Some "/srv/app") "./static",
   filepath.Abs (Some "/srv/app") "/var/www/", filepath.Abs None "x")
  = ("static/index.html", "/a", "a", "",
     Some "/srv/app/static", Some "/var/www", None).
Proof. reflexivity. Qed.


Example cleanPath_tests :
  map server.cleanPath
      [""; "/"; "/config"; "//config"; "/../etc/passwd"; "/a/"; "/a//";
       "/a/b/../"; "/a/./b"; "a"; "/index.html"; "/%2e%2e/etc/passwd"]
  = ["/"; "/"; "/config"; "/config"; "/etc/passwd"; "/a/"; "/a/";
     "/a/"; "/a/b"; "/a"; "/index.html"; "/%2e%2e/etc/passwd"].
Proof. reflexivity. Qed.

Example base_suffix_tests :
  (map filepath_Base [""; "/"; "/a/b"; "a/b/"; "configs/default.json"],
   map (λ s, HasSuffix s "/index.html")
       ["/index.html"; "/docs/index.html"; "/"; "index.html"; ""])
  = (["."; "/"; "b"; "b"; "default.json"],
     [true; true; false; false; false]).
Proof. reflexivity. Qed.

(** ** Endpoint validation *)

Lemma eqb_string_true (a b : string) : String.eqb a b = true ↔ a = b.
Proof. apply String.eqb_eq. Qed.

Lemma eqb_string_false (a b : string) : String.eqb a b = false ↔ a ≠ b.
Proof. apply String.eqb_neq. Qed.

Lemma status_range_test (c : Z) :
  (c <? 400) || (c >? 599) = false ↔ status_in_error_range c.
Proof. unfold status_in_error_range. lia. Qed.

(** What validation guarantees of a [conditional_error] endpoint. *)
Lemma validateEndpointConfig_conditional e :
  Type_ e = "conditional_error" →
  validateEndpointConfig e = None →
  1 ≤ ErrorEveryN e ∧ status_in_error_range (StatusCode e).
Proof.
  intros Hty. unfold validateEndpointConfig. rewrite Hty.
  cbn [String.eqb Ascii.eqb Bool.eqb].
  destruct (ErrorEveryN e <? 1) eqn:Hn; [discriminate|].
  destruct ((StatusCode e <? 400) || (StatusCode e >? 599)) eqn:Hc;
    [discriminate|].
  intros _. apply status_range_test in Hc. split; [lia|done].
Qed.

(** C6, as amended: validation returns no error exactly for the tag
    [error] with a status code in 400..599, the tag [delay] with a
    non-negative delay, the tag [conditional_error] with [error_every_n]
    at least 1 and a status code in 400..599, and the tag [static], which
    carries no constraint; every other tag is an error. *)
Theorem validateEndpointConfig_accepts (e : EndpointConfig) :
  validateEndpointConfig e = None ↔ accepted e.
Proof.
  unfold validateEndpointConfig, accepted.
  destruct (String.eqb (Type_ e) "error") eqn:He.
  { apply eqb_string_true in He. rewrite He.
    destruct ((StatusCode e <? 400) || (StatusCode e >? 599)) eqn:Hc.
    - split; [discriminate|].
      intros [[_ Hr]|[[? _]|[[? _]|?]]]; try discriminate.
      apply status_range_test in Hr. congruence.
    - apply status_range_test in Hc. split; [|done]. intros _. by left. }
  apply eqb_string_false in He.
  destruct (String.eqb (Type_ e) "delay") eqn:Hd.
  { apply eqb_string_true in Hd. rewrite Hd.
    destruct (DelayMs e <? 0) eqn:Hc.
    - split; [discriminate|].
      intros [[? _]|[[_ Hr]|[[? _]|?]]]; try discriminate. lia.
    - split; [|done]. intros _. right; left. split; [done|lia]. }
  apply eqb_string_false in Hd.
  destruct (String.eqb (Type_ e) "conditional_error") eqn:Hce.
  { apply eqb_string_true in Hce. rewrite Hce.
    destruct (ErrorEveryN e <? 1) eqn:Hn.
    - split; [discriminate|].
      intros [[? _]|[[? _]|[[_ [Hr _]]|?]]]; try discriminate. lia.
    - destruct ((StatusCode e <? 400) || (StatusCode e >? 599)) eqn:Hc.
      + split; [discriminate|].
        intros [[? _]|[[? _]|[[_ [_ Hr]]|?]]]; try discriminate.
        apply status_range_test in Hr. congruence.
      + apply status_range_test in Hc. split; [|done]. intros _.
        right; right; left. repeat split; [lia|apply Hc..]. }
  apply eqb_string_false in Hce.
  destruct (String.eqb (Type_ e) "static") eqn:Hs.
  { apply eqb_string_true in Hs. split; [|done]. intros _. by do 3 right. }
  apply eqb_string_false in Hs.
  split; [discriminate|]. intros [[? _]|[[? _]|[[? _]|?]]]; done.
Qed.

(** The tag [static] is none of the three behaviour kinds, and validation
    lets it through. *)
Lemma validateEndpointConfig_static_accepted :
  let e := {| Type_ := "static"; StatusCode := 0; Message := "";
              DelayMs := 0; Response := None; ErrorEveryN := 0;
              SuccessResponse := None |} in
  Type_ e ≠ "error" ∧ Type_ e ≠ "delay" ∧ Type_ e ≠ "conditional_error"
  ∧ validateEndpointConfig e = None.
Proof. repeat split; discriminate. Qed.

(** ** Request history *)

Section RequestHistory.

Import server.

Lemma addToRequestLog_maxLogSize e s :
  maxLogSize (addToRequestLog e s) = maxLogSize s.
Proof. unfold addToRequestLog. by case_match. Qed.

Lemma addToRequestLog_take e s :
  0 ≤ maxLogSize s →
  requestLog (addToRequestLog e s)
  = take (Z.to_nat (maxLogSize s)) (e :: requestLog s).
Proof.
  intros Hk. unfold addToRequestLog.
  destruct (maxLogSize s <? _) eqn:Hlt; simpl; [done|].
  apply Z.ltb_ge in Hlt. rewrite take_ge; [done|].
  cbn [length] in *. lia.
Qed.

Lemma append_all_take entries : ∀ s,
  0 ≤ maxLogSize s →
  (length (requestLog s) ≤ Z.to_nat (maxLogSize s))%nat →
  maxLogSize (append_all entries s) = maxLogSize s
  ∧ requestLog (append_all entries s)
    = take (Z.to_nat (maxLogSize s)) (rev entries ++ requestLog s).
Proof.
  induction entries as [|e entries IH]; intros s Hk Hlen.
  - simpl. split; [done|]. by rewrite take_ge by lia.
  - simpl. destruct (IH (addToRequestLog e s)) as [Hm Hl].
    + by rewrite addToRequestLog_maxLogSize.
    + rewrite addToRequestLog_maxLogSize, addToRequestLog_take by done.
      rewrite length_take. lia.
    + unfold append_all in *. rewrite Hm, Hl.
      rewrite !addToRequestLog_maxLogSize.
      split; [done|].
      rewrite addToRequestLog_take by done.
      rewrite <- app_assoc. simpl.
      set (k := Z.to_nat (maxLogSize s)).
      destruct (decide (length (rev entries) < k)%nat) as [Hlt|Hge].
      * rewrite !take_app_ge by lia.
        f_equal. rewrite take_take. f_equal. lia.
      * rewrite !take_app_le by lia. done.
Qed.

(** A new server has an empty request log of capacity 1000. *)
Lemma NewServer_requestLog path t r h d s :
  NewServer path t r h d = Some s →
  maxLogSize s = 1000 ∧ requestLog s = [].
Proof.
  unfold NewServer. destruct (LoadConfig r _) as [m [err|]]; [done|].
  by intros [= <-].
Qed.

(** C4: starting from a request log within the capacity of 1000
    entries, after any sequence of appends the log holds at most 1000
    entries; it consists of the appended records, the latest first,
    followed by the earlier records in their previous order, cut after
    the first 1000, so that the records dropped on overflow are the
    oldest ones; and one more append puts its record at position 0 in
    front of the first 999 records of the log. *)
Theorem requestLog_bounded_newest_first
    (s : Server) (entries : list RequestLogEntry.t) :
  maxLogSize s = 1000 →
  (length (requestLog s) ≤ 1000)%nat →
  let s' := append_all entries s in
  (length (requestLog s') ≤ 1000)%nat
  ∧ requestLog s' = take 1000 (rev entries ++ requestLog s)
  ∧ ∀ e, requestLog (addToRequestLog e s') = e :: take 999 (requestLog s').
Proof.
  intros Hmax Hlen s'.
  destruct (append_all_take entries s) as [Hm Hl]; [lia..|].
  fold s' in Hm, Hl. rewrite Hmax in Hm, Hl.
  change (Z.to_nat 1000) with 1000%nat in Hl.
  split_and!.
  - rewrite Hl, length_take. lia.
  - done.
  - intros e. rewrite addToRequestLog_take by lia. by rewrite Hm.
Qed.

Lemma requestLog_bounded_newest_first_witness :
  let s' := append_all [sample_entry 1; sample_entry 2] default_server in
  (length (requestLog s') ≤ 1000)%nat
  ∧ requestLog s'
    = take 1000 (rev [sample_entry 1; sample_entry 2]
                 ++ requestLog default_server)
  ∧ ∀ e, requestLog (addToRequestLog e s') = e :: take 999 (requestLog s').
Proof.
  apply (requestLog_bounded_newest_first
           default_server [sample_entry 1; sample_entry 2]).
  - reflexivity.
  - simpl. lia.
Defined.

End RequestHistory.

(** ** Statistics of one endpoint *)

Lemma wrap64_id (z : Z) : in_int64 z → wrap64 z = z.
Proof.
  unfold in_int64, min_int64, max_int64, wrap64. intros H.
  rewrite Z.mod_small; lia.
Qed.

Lemma hist_total_empty : hist_total ∅ = 0.
Proof. unfold hist_total. by rewrite map_fold_empty. Qed.

Lemma hist_total_insert_fresh (m : gmap Z Z) k v :
  m !! k = None → hist_total (<[k := v]> m) = v + hist_total m.
Proof.
  intros Hk. unfold hist_total.
  rewrite map_fold_insert_L; [done| |done].
  intros. lia.
Qed.

Lemma hist_total_delete (m : gmap Z Z) k v :
  m !! k = Some v → hist_total m = v + hist_total (delete k m).
Proof.
  intros Hk. rewrite <- (insert_delete_id m k v) at 1 by done.
  apply hist_total_insert_fresh, lookup_delete_eq.
Qed.

Lemma hist_total_nonneg (m : gmap Z Z) :
  map_Forall (λ _ v, 0 ≤ v) m → 0 ≤ hist_total m.
Proof.
  induction m as [|k v m Hk _ IH] using map_first_key_ind.
  - rewrite hist_total_empty. lia.
  - intros Hall. rewrite hist_total_insert_fresh by done.
    apply map_Forall_insert in Hall as [Hv Hm]; [|done].
    specialize (IH Hm). lia.
Qed.

(** Each count is at most the total when no count is negative. *)
Lemma hist_lookup_le_total (m : gmap Z Z) k :
  map_Forall (λ _ v, 0 ≤ v) m →
  0 ≤ default 0 (m !! k) ≤ hist_total m.
Proof.
  intros Hall. destruct (m !! k) as [v|] eqn:Hk; simpl.
  - rewrite (hist_total_delete m k v Hk).
    assert (0 ≤ hist_total (delete k m)).
    { apply hist_total_nonneg.
      intros j w Hj. apply lookup_delete_Some in Hj as [_ Hj].
      by apply (Hall j). }
    specialize (Hall k v Hk). simpl in Hall. lia.
  - pose proof (hist_total_nonneg m Hall). lia.
Qed.

Lemma hist_total_bump (codes : option (gmap Z Z)) st :
  map_Forall (λ _ v, 0 ≤ v) (default ∅ codes) →
  hist_total (default ∅ codes) < max_int64 →
  hist_total (EndpointStats.bump st codes) = hist_total (default ∅ codes) + 1
  ∧ map_Forall (λ _ v, 0 ≤ v) (EndpointStats.bump st codes).
Proof.
  intros Hall Hlt. unfold EndpointStats.bump.
  set (m := default ∅ codes) in *.
  pose proof (hist_lookup_le_total m st Hall) as Hle.
  rewrite wrap64_id by (unfold in_int64, min_int64, max_int64 in *; lia).
  split.
  - destruct (m !! st) as [v|] eqn:Hk; simpl in *.
    + rewrite <- insert_delete_eq.
      rewrite hist_total_insert_fresh by apply lookup_delete_eq.
      rewrite (hist_total_delete m st v Hk). lia.
    + rewrite hist_total_insert_fresh by done. lia.
  - apply map_Forall_insert_2; [lia|done].
Qed.

Lemma stats_inv_new path : stats_inv 0 0 (EndpointStats.new path).
Proof.
  split; simpl; first [done | apply hist_total_empty | apply map_Forall_empty].
Qed.

Lemma stats_inv_zero : stats_inv 0 0 EndpointStats.zero.
Proof.
  split; simpl; first [done | apply hist_total_empty | apply map_Forall_empty].
Qed.

Lemma stats_inv_record n errs es r :
  0 ≤ errs ≤ n → n < max_int64 →
  stats_inv n errs es →
  stats_inv (n + 1)
            (if 400 <=? rec_status r then errs + 1 else errs)
            (record_one es r).
Proof.
  intros Herrs Hn [Hreq Herr Hhist Hnn Hmm].
  destruct (hist_total_bump (EndpointStats.StatusCodes es) (rec_status r))
    as [Hb1 Hb2]; [done|lia|].
  unfold record_one, EndpointStats.RecordRequest.
  split; simpl.
  - rewrite Hreq. apply wrap64_id.
    unfold in_int64, min_int64, max_int64 in *. lia.
  - rewrite Herr. case_match; [|done]. apply wrap64_id.
    unfold in_int64, min_int64, max_int64 in *. lia.
  - rewrite Hb1. lia.
  - done.
  - repeat case_match; lia.
Qed.

Lemma errors_among_snoc reqs r :
  errors_among (reqs ++ [r])
  = errors_among reqs + (if 400 <=? rec_status r then 1 else 0).
Proof.
  unfold errors_among. rewrite filter_app, length_app.
  rewrite filter_cons, filter_nil.
  case_decide; case_match; simpl; lia.
Qed.

Lemma errors_among_bounds reqs :
  0 ≤ errors_among reqs ≤ Z.of_nat (length reqs).
Proof.
  unfold errors_among. pose proof (length_filter (λ r, 400 ≤ rec_status r) reqs).
  lia.
Qed.

Lemma record_all_inv es0 reqs :
  stats_inv 0 0 es0 →
  Z.of_nat (length reqs) ≤ max_int64 →
  stats_inv (Z.of_nat (length reqs)) (errors_among reqs) (record_all reqs es0).
Proof.
  intros H0. induction reqs as [|r reqs IH] using rev_ind; intros Hlen.
  - done.
  - rewrite length_app in Hlen. simpl in Hlen.
    unfold record_all. rewrite fold_left_app. simpl.
    rewrite length_app, errors_among_snoc. simpl.
    replace (Z.of_nat (length reqs + 1)) with (Z.of_nat (length reqs) + 1)
      by lia.
    pose proof (errors_among_bounds reqs).
    pose proof (stats_inv_record (Z.of_nat (length reqs)) (errors_among reqs)
                  (record_all reqs es0) r) as Hstep.
    destruct (400 <=? rec_status r);
      (replace (errors_among reqs + 0) with (errors_among reqs) by lia);
      apply Hstep; try lia; apply IH; lia.
Qed.

(** C3: for the statistics object of any endpoint, after any sequence of
    [RecordRequest] calls (short enough for the 64 bit counters not to
    overflow) the error count is at most the request count, the counts of
    the status histogram add up to the request count, the error count is
    the number of recorded requests with a status of 400 or more, and the
    least elapsed time is at most the greatest. *)
Theorem RecordRequest_invariants (path : string) (reqs : list Recorded) :
  Z.of_nat (length reqs) ≤ max_int64 →
  let es := record_all reqs (EndpointStats.new path) in
  EndpointStats.RequestCount es = Z.of_nat (length reqs)
  ∧ EndpointStats.ErrorCount es ≤ EndpointStats.RequestCount es
  ∧ hist_total (default ∅ (EndpointStats.StatusCodes es))
    = EndpointStats.RequestCount es
  ∧ EndpointStats.ErrorCount es = errors_among reqs
  ∧ EndpointStats.MinTimeMs es ≤ EndpointStats.MaxTimeMs es.
Proof.
  intros Hlen es.
  destruct (record_all_inv (EndpointStats.new path) reqs
              (stats_inv_new path) Hlen) as [Hreq Herr Hhist _ Hmm].
  fold es in Hreq, Herr, Hhist, Hmm.
  pose proof (errors_among_bounds reqs).
  rewrite Hreq, Herr, Hhist. split_and!; try done; lia.
Qed.

Lemma RecordRequest_invariants_witness :
  let reqs := [ {| rec_now := 10; rec_duration := ms 5; rec_status := 200 |};
                {| rec_now := 20; rec_duration := ms 0; rec_status := 503 |};
                {| rec_now := 30; rec_duration := ms 3; rec_status := 404 |} ] in
  let es := record_all reqs (EndpointStats.new "/api/flaky") in
  EndpointStats.RequestCount es = Z.of_nat (length reqs)
  ∧ EndpointStats.ErrorCount es ≤ EndpointStats.RequestCount es
  ∧ hist_total (default ∅ (EndpointStats.StatusCodes es))
    = EndpointStats.RequestCount es
  ∧ EndpointStats.ErrorCount es = errors_among reqs
  ∧ EndpointStats.MinTimeMs es ≤ EndpointStats.MaxTimeMs es.
Proof.
  intros reqs.
  apply (RecordRequest_invariants "/api/flaky" reqs).
  vm_compute. discriminate.
Defined.

(** ** The least elapsed time *)

Lemma record_all_snoc reqs r es :
  record_all (reqs ++ [r]) es = record_one (record_all reqs es) r.
Proof. unfold record_all. by rewrite fold_left_app. Qed.

Lemma least_ms_snoc first others r :
  least_ms first (others ++ [r])
  = Z.min (least_ms first others) (Milliseconds (rec_duration r)).
Proof. unfold least_ms. by rewrite fold_left_app. Qed.

(** As long as every recorded request took at least one millisecond,
    [MinTimeMs] is the least elapsed time and is not zero. *)
Lemma MinTimeMs_least_when_positive path first others :
  Forall (λ r, 1 ≤ Milliseconds (rec_duration r)) (first :: others) →
  let es := record_all (first :: others) (EndpointStats.new path) in
  EndpointStats.MinTimeMs es = least_ms first others
  ∧ 1 ≤ EndpointStats.MinTimeMs es.
Proof.
  intros Hall. apply Forall_cons in Hall as [Hfirst Hothers].
  induction others as [|r others IH] using rev_ind.
  - unfold least_ms. simpl. lia.
  - apply Forall_app in Hothers as [Hothers Hr].
    rewrite Forall_singleton in Hr.
    destruct (IH Hothers) as [IH1 IH2].
    rewrite app_comm_cons, record_all_snoc, least_ms_snoc.
    cbn zeta in *.
    set (es := record_all (first :: others) (EndpointStats.new path)) in *.
    unfold record_one, EndpointStats.RecordRequest.
    cbn [EndpointStats.MinTimeMs].
    rewrite <- IH1.
    destruct (EndpointStats.MinTimeMs es =? 0) eqn:Hz; [lia|].
    rewrite orb_false_l. case_match; lia.
Qed.

(** C9, the code at the failing input: requests of 5 ms, 0 ms and 3 ms
    are recorded in this order. The least elapsed time is 0 ms, yet
    [MinTimeMs] ends at 3: the 0 ms record makes the field look unset, so
    the next record overwrites it. After the first two records the field
    is 0 although requests have been recorded. *)
Theorem MinTimeMs_overwritten_after_zero :
  let es := record_all [took 5; took 0; took 3]
                       (EndpointStats.new "/api/delay") in
  EndpointStats.MinTimeMs es = 3
  ∧ least_ms (took 5) [took 0; took 3] = 0
  ∧ EndpointStats.MinTimeMs
      (record_all [took 5; took 0] (EndpointStats.new "/api/delay")) = 0.
Proof. vm_compute. done. Qed.

(** ** The configuration manager *)

Lemma saveConfigToFile_config m c :
  config (saveConfigToFile m c).1 = config m.
Proof. unfold saveConfigToFile. by repeat case_match. Qed.

Lemma saveConfigToFile_error m c :
  is_Some (saveConfigToFile m c).2 ↔ persist_fails m.
Proof.
  unfold saveConfigToFile, persist_fails.
  destruct (mkdir_ok (disk m)), (write_ok (disk m)); simpl;
    split; intros H; try (by eauto); try (by destruct H as [? ?]);
    destruct H; discriminate.
Qed.

Lemma saveConfigToFile_heap m c :
  heap (saveConfigToFile m c).1 = heap m
  ∧ configPath (saveConfigToFile m c).1 = configPath m.
Proof. unfold saveConfigToFile. by repeat case_match. Qed.

(** When [UpdateConfig] returns an error, be it from validation or from
    the disk, the manager holds the configuration it held. *)
Lemma UpdateConfig_error_config newConfig m :
  is_Some (UpdateConfig newConfig m).2 →
  config (UpdateConfig newConfig m).1 = config m
  ∧ heap (UpdateConfig newConfig m).1 = heap m
  ∧ configPath (UpdateConfig newConfig m).1 = configPath m.
Proof.
  unfold UpdateConfig.
  destruct (validateConfig newConfig); [done|].
  pose proof (saveConfigToFile_config m newConfig) as Hc.
  pose proof (saveConfigToFile_heap m newConfig) as [Hh Hp].
  destruct (saveConfigToFile m newConfig) as [m' [err|]]; simpl in *.
  - done.
  - by intros [? ?].
Qed.

(** A rejected endpoint leaves the manager as it was. *)
Lemma UpdateEndpoint_invalid_unchanged path e m err :
  validateEndpointConfig e = Some err → (UpdateEndpoint path e m).1 = m.
Proof.
  intros Hv. unfold UpdateEndpoint. rewrite Hv. by destruct (config m).
Qed.

(** When the save fails, [UpdateEndpoint] has already put the endpoint
    into the live table and returns the error without undoing it. *)
Lemma UpdateEndpoint_save_failure_keeps_entry path e m c :
  config m = Some c →
  validateEndpointConfig e = None →
  persist_fails m →
  is_Some (UpdateEndpoint path e m).2
  ∧ live_endpoint (UpdateEndpoint path e m).1 path = Some e.
Proof.
  intros Hc Hv Hfail. unfold UpdateEndpoint. rewrite Hc, Hv.
  set (c' := {| Server := Server c;
                Endpoints := Some (<[path := e]> (default ∅ (Endpoints c))) |}).
  pose proof (saveConfigToFile_error (set_config m (Some c')) c') as He.
  pose proof (saveConfigToFile_config (set_config m (Some c')) c') as Hk.
  destruct (saveConfigToFile (set_config m (Some c')) c') as [m' [err|]];
    simpl in *.
  - split; [eauto|]. unfold live_endpoint. rewrite Hk. simpl.
    apply lookup_insert_eq.
  - assert (is_Some (@None error)) as [? ?]; [|done]. by apply He.
Qed.

(** Likewise [RemoveEndpoint] has already deleted the entry. *)
Lemma RemoveEndpoint_save_failure_drops_entry path m c table :
  config m = Some c →
  Endpoints c = Some table →
  persist_fails m →
  is_Some (RemoveEndpoint path m).2
  ∧ live_endpoint (RemoveEndpoint path m).1 path = None.
Proof.
  intros Hc Ht Hfail. unfold RemoveEndpoint. rewrite Hc, Ht.
  set (c' := {| Server := Server c; Endpoints := Some (delete path table) |}).
  pose proof (saveConfigToFile_error (set_config m (Some c')) c') as He.
  pose proof (saveConfigToFile_config (set_config m (Some c')) c') as Hk.
  destruct (saveConfigToFile (set_config m (Some c')) c') as [m' [err|]];
    simpl in *.
  - split; [eauto|]. unfold live_endpoint. rewrite Hk. simpl.
    apply lookup_delete_eq.
  - assert (is_Some (@None error)) as [? ?]; [|done]. by apply He.
Qed.

(** C2, the code at the failing input: the default configuration is
    loaded and the configuration file cannot be written. [UpdateEndpoint]
    with a valid endpoint for the new path [/api/test] returns the save
    error, yet the live table now has the endpoint; [RemoveEndpoint] of
    [/api/error] returns the save error, yet the endpoint is gone from
    the live table. *)
Theorem endpoint_mutators_keep_change_when_save_fails :
  let m := default_manager_readonly in
  validateEndpointConfig sample_error_endpoint = None
  ∧ live_endpoint m "/api/test" = None
  ∧ (UpdateEndpoint "/api/test" sample_error_endpoint m).2
    = Some (FailedToSaveConfig FailedToWriteConfigFile)
  ∧ live_endpoint (UpdateEndpoint "/api/test" sample_error_endpoint m).1
                  "/api/test"
    = Some sample_error_endpoint
  ∧ is_Some (live_endpoint m "/api/error")
  ∧ (RemoveEndpoint "/api/error" m).2
    = Some (FailedToSaveConfig FailedToWriteConfigFile)
  ∧ live_endpoint (RemoveEndpoint "/api/error" m).1 "/api/error" = None.
Proof. vm_compute. split_and!; eauto. Qed.

Lemma config_eta (c : Config) :
  {| Server := Server c; Endpoints := Endpoints c |} = c.
Proof. by destruct c. Qed.

(** C10, as amended: [RemoveEndpoint] returns an error exactly when the
    configuration is not loaded, the endpoint table is nil, or saving the
    configuration to disk fails; on a loaded configuration with a non-nil
    table, removing a path that is absent leaves the configuration, and
    so its endpoint table, as it was. *)
Theorem RemoveEndpoint_error_cases (path : string) (m : Manager) :
  (is_Some (RemoveEndpoint path m).2
   ↔ config m = None
     ∨ (∃ c, config m = Some c ∧ Endpoints c = None)
     ∨ persist_fails m)
  ∧ ∀ c table,
      config m = Some c → Endpoints c = Some table → table !! path = None →
      config (RemoveEndpoint path m).1 = Some c.
Proof.
  unfold RemoveEndpoint. split.
  - destruct (config m) as [c|] eqn:Hc; [|split; eauto].
    destruct (Endpoints c) as [table|] eqn:Ht.
    + set (c' := {| Server := Server c;
                    Endpoints := Some (delete path table) |}).
      pose proof (saveConfigToFile_error (set_config m (Some c')) c') as He.
      change (persist_fails (set_config m (Some c')))
        with (persist_fails m) in He.
      destruct (saveConfigToFile (set_config m (Some c')) c')
        as [m' [err|]]; simpl in *.
      * split; [intros _; right; right; apply He; eauto | eauto].
      * split; [by intros [? ?]|].
        intros [?|[(c0 & Hc0 & Ht0)|Hp]]; [done| |by apply He].
        congruence.
    + split; [|eauto]. intros _. right; left. eauto.
  - intros c table Hc Ht Habs. rewrite Hc, Ht.
    rewrite delete_id by done. rewrite <- Ht, config_eta.
    pose proof (saveConfigToFile_config (set_config m (Some c)) c) as Hs.
    destruct (saveConfigToFile (set_config m (Some c)) c) as [m' [err|]];
      simpl in *; done.
Qed.

(** With the configuration loaded, the endpoint table non-nil and the
    path absent, [RemoveEndpoint] still returns an error when the
    configuration file cannot be written. *)
Lemma RemoveEndpoint_absent_path_save_error :
  let m := default_manager_readonly in
  (∃ c table, config m = Some c ∧ Endpoints c = Some table
              ∧ table !! "/api/missing" = None)
  ∧ (RemoveEndpoint "/api/missing" m).2
    = Some (FailedToSaveConfig FailedToWriteConfigFile).
Proof.
  split; [|by vm_compute].
  eexists _, _. split_and!; [reflexivity..|]. by vm_compute.
Qed.

(** ** Snapshots of the configuration *)

(** The copy loop of [GetConfig] yields a table with the same entries. *)
Lemma copyEndpoints_entries (src : option (gmap string EndpointConfig)) :
  copyEndpoints src = default ∅ src.
Proof.
  unfold copyEndpoints.
  apply (map_fold_weak_ind (λ acc m, acc = m)); [done|].
  intros path e m acc _ ->. done.
Qed.

(** A snapshot and the live configuration are observed alike, a nil
    table being handed out as an empty one. *)
Lemma GetConfig_view m c :
  config m = Some c →
  ∃ snapshot,
    GetConfig m = Some snapshot
    ∧ Server snapshot = Server c
    ∧ Endpoints snapshot = Some (default ∅ (Endpoints c)).
Proof.
  intros Hc. unfold GetConfig. rewrite Hc. eexists. split; [done|].
  simpl. by rewrite copyEndpoints_entries.
Qed.

(** The entries of a snapshot are the entries of the live table: they
    hold the same references to JSON objects. *)
Lemma GetConfig_same_references m snapshot path :
  GetConfig m = Some snapshot →
  match Endpoints snapshot with
  | Some table => table !! path
  | None => None
  end = live_endpoint m path.
Proof.
  unfold GetConfig, live_endpoint. destruct (config m) as [c|]; [|done].
  intros [= <-]. simpl. rewrite copyEndpoints_entries.
  destruct c as [srv [table|]]; simpl; [done|]. apply lookup_empty.
Qed.

(** C7, the code at the failing input: the default configuration is
    loaded; a caller takes a snapshot with [GetConfig] and sets the key
    [message] of the [response] object of [/api/delay] in the snapshot.
    The object is shared with the live configuration, whose endpoint now
    answers with the new text: what readers of the live configuration
    observe has changed. *)
Theorem GetConfig_shares_response_objects :
  let m := default_manager in
  ∃ snapshot h',
    GetConfig m = Some snapshot
    ∧ set_response_key snapshot "/api/delay" "message" (JStr "changed")
                       (heap m) = Some h'
    ∧ live_response_text m "/api/delay" "message"
      = Some (JStr "Delayed response")
    ∧ live_response_text (set_heap m h') "/api/delay" "message"
      = Some (JStr "changed")
    ∧ live_view (set_heap m h') ≠ live_view m.
Proof.
  intros m.
  destruct (GetConfig m) as [snapshot|] eqn:Hsnap; [|by vm_compute in Hsnap].
  destruct (set_response_key snapshot "/api/delay" "message" (JStr "changed")
                             (heap m)) as [h'|] eqn:Hset.
  2: { revert Hset. apply (f_equal (λ o, from_option id snapshot o)) in Hsnap.
       simpl in Hsnap. subst snapshot. by vm_compute. }
  assert (live_response_text m "/api/delay" "message"
          = Some (JStr "Delayed response")) as Hold by by vm_compute.
  assert (live_response_text (set_heap m h') "/api/delay" "message"
          = Some (JStr "changed")) as Hnew.
  { apply (f_equal (λ o, from_option id snapshot o)) in Hsnap.
    simpl in Hsnap. subst snapshot.
    apply (f_equal (λ o, from_option id ∅ o)) in Hset.
    simpl in Hset. subst h'. by vm_compute. }
  exists snapshot, h'. split_and!; try done.
  intros Heq. unfold live_response_text in Hnew, Hold.
  rewrite Heq in Hnew. congruence.
Qed.

(** ** Statistics of the control plane *)

Section ControlPlane.

Import server.

(** Whatever the method handler writes, [handleConfig] records the
    request under [/config] with status 200. *)
Lemma handleConfig_stats clk r s :
  stats (handleConfig clk r s).1
  = ServerStats.RecordRequest "/config" (now clk) (since clk) 200 (stats s).
Proof.
  unfold handleConfig, handleUpdateConfig, handleAddEndpoint,
    handleRemoveEndpoint.
  repeat case_match; simplify_eq; done.
Qed.

(** [/requestlog] and [/ws] record no statistics. *)
Lemma handleRequestLog_stats r s : stats (handleRequestLog r s).1 = stats s.
Proof. unfold handleRequestLog. by case_match. Qed.

Lemma handleWebSocket_stats env s : stats (handleWebSocket env s).1 = stats s.
Proof. done. Qed.

(** C8, the code at the failing input: on a server holding the default
    configuration, [PUT /config] with port 70000 fails validation and the
    client is sent status 400, which is also the status in the request
    log; the statistics of [/config] count one request, no error, and
    the histogram has its single count at 200, none at 400. A request to
    [/requestlog] creates no statistics at all. *)
Theorem PUT_config_rejected_recorded_as_200 :
  let served := ServeHTTP sample_env sample_clock sample_clock
                          put_invalid_config default_server in
  (status <$> served.2) = Some 400
  ∧ (RequestLogEntry.StatusCode <$> head (requestLog served.1)) = Some 400
  ∧ (EndpointStats.RequestCount <$> endpoint_stats served.1 "/config")
    = Some 1
  ∧ (EndpointStats.ErrorCount <$> endpoint_stats served.1 "/config") = Some 0
  ∧ (EndpointStats.StatusCodes <$> endpoint_stats served.1 "/config")
    = Some (Some {[ 200 := 1 ]})
  ∧ ServerStats.ErrorCount (stats served.1) = 0
  ∧ endpoint_stats
      (ServeHTTP sample_env sample_clock sample_clock
                 (request "GET" "/requestlog") default_server).1
      "/requestlog" = None.
Proof. vm_compute. done. Qed.

End ControlPlane.

(** ** Conditional errors *)

Section ConditionalError.

Import server.

Lemma div_succ (m n : Z) :
  0 < n → 0 ≤ m →
  (m + 1) `div` n = m `div` n + (if (m + 1) `mod` n =? 0 then 1 else 0).
Proof.
  intros Hn Hm. destruct ((m + 1) `mod` n =? 0) eqn:E.
  - apply Z.eqb_eq in E. Z.div_mod_to_equations. nia.
  - apply Z.eqb_neq in E. Z.div_mod_to_equations. nia.
Qed.

(** Among the positions 1..count, those that are multiples of n. *)
Lemma multiples_count (n : Z) (count : nat) :
  0 < n →
  Z.of_nat (length (filter (λ j : nat, ((Z.of_nat j + 1) `mod` n =? 0) = true)
                           (seq 0 count)))
  = Z.of_nat count `div` n.
Proof.
  intros Hn. induction count as [|count IH].
  - simpl. by rewrite Z.div_0_l by lia.
  - rewrite seq_S, filter_app, length_app, Nat2Z.inj_add, IH. simpl.
    replace (Z.of_nat (S count)) with (Z.of_nat count + 1) by lia.
    rewrite div_succ by lia.
    rewrite filter_cons, filter_nil.
    case_decide as Hd; rewrite Hd || apply not_true_is_false in Hd;
      try rewrite Hd; simpl; lia.
Qed.

Lemma conditional_count_GetEndpointStats p q ss :
  conditional_count p (ServerStats.GetEndpointStats q ss)
  = conditional_count p ss.
Proof.
  unfold conditional_count, ServerStats.GetEndpointStats.
  destruct (ServerStats.Endpoints ss !! q) eqn:Hq; [done|]. simpl.
  destruct (decide (q = p)) as [->|Hne].
  - by rewrite lookup_insert_eq, Hq.
  - by rewrite lookup_insert_ne.
Qed.

Lemma conditional_count_on_endpoint_frame p q f ss :
  (∀ es, EndpointStats.ConditionalCount (f es)
         = EndpointStats.ConditionalCount es) →
  conditional_count p (ServerStats.on_endpoint q f ss)
  = conditional_count p ss.
Proof.
  intros Hf. unfold conditional_count, ServerStats.on_endpoint. simpl.
  destruct (decide (q = p)) as [->|Hne].
  - rewrite lookup_alter_eq.
    destruct (ServerStats.Endpoints ss !! p); simpl; [apply Hf|done].
  - by rewrite lookup_alter_ne.
Qed.

Lemma conditional_count_RecordRequest p q t d st ss :
  conditional_count p (ServerStats.RecordRequest q t d st ss)
  = conditional_count p ss.
Proof.
  unfold ServerStats.RecordRequest.
  rewrite conditional_count_on_endpoint_frame by done.
  by rewrite conditional_count_GetEndpointStats.
Qed.

Lemma conditional_count_increment p ss :
  conditional_count p
    (ServerStats.on_endpoint p EndpointStats.IncrementConditionalCount
       (ServerStats.GetEndpointStats p ss))
  = wrap64 (conditional_count p ss + 1).
Proof.
  unfold conditional_count, ServerStats.on_endpoint,
    ServerStats.GetEndpointStats.
  destruct (ServerStats.Endpoints ss !! p) eqn:Hp; simpl.
  - by rewrite lookup_alter_eq, Hp.
  - by rewrite lookup_alter_eq, lookup_insert_eq.
Qed.

(** A request whose path is configured goes to the dynamic handler with
    the endpoint of the live table. *)
Lemma handleRequest_configured env clk r s c table e :
  live_config s = Some c →
  Endpoints c = Some table →
  table !! URLPath r = Some e →
  handleRequest env clk r s = handleDynamicEndpoint clk r e s.
Proof.
  unfold live_config. intros Hc Ht He. unfold handleRequest, GetConfig.
  rewrite Hc. cbn [Endpoints]. rewrite copyEndpoints_entries, Ht. simpl.
  by rewrite He.
Qed.

Lemma valid_header_code_error_range c :
  status_in_error_range c → valid_header_code c = true.
Proof. unfold status_in_error_range, valid_header_code. lia. Qed.

(** One request to a [conditional_error] endpoint whose counter stands at
    [k]: the counter moves to [k + 1], the response is the one due at
    position [k + 1], and nothing but the statistics changes. *)
Lemma handleDynamicEndpoint_conditional clk r e s k :
  Type_ e = "conditional_error" →
  validateEndpointConfig e = None →
  conditional_count (URLPath r) (stats s) = k →
  0 ≤ k < max_int64 →
  ∃ s',
    handleDynamicEndpoint clk r e s
    = (s', Some (response_at e (heap_of s) (k + 1)))
    ∧ manager_of s' = manager_of s
    ∧ conditional_count (URLPath r) (stats s') = k + 1.
Proof.
  intros Hty Hvalid Hk Hrange.
  destruct (validateEndpointConfig_conditional e Hty Hvalid) as [Hn Hsc].
  unfold handleDynamicEndpoint. rewrite Hty. cbn [String.eqb Ascii.eqb Bool.eqb].
  cbn [set_stats stats].
  rewrite conditional_count_increment, Hk.
  rewrite wrap64_id by (unfold in_int64, min_int64, max_int64 in *; lia).
  unfold go_rem. destruct (ErrorEveryN e =? 0) eqn:Hz; [lia|].
  rewrite Z.rem_mod_nonneg by lia.
  unfold response_at.
  destruct ((k + 1) `mod` ErrorEveryN e =? 0) eqn:Hrem.
  - rewrite (valid_header_code_error_range _ Hsc).
    eexists. split; [reflexivity|]. split; [done|].
    unfold record. cbn [set_stats stats].
    rewrite conditional_count_RecordRequest, conditional_count_increment, Hk.
    apply wrap64_id. unfold in_int64, min_int64, max_int64 in *. lia.
  - change (valid_header_code 200) with true. cbv iota.
    eexists. split; [reflexivity|]. split; [done|].
    unfold record. cbn [set_stats stats].
    rewrite conditional_count_RecordRequest, conditional_count_increment, Hk.
    apply wrap64_id. unfold in_int64, min_int64, max_int64 in *. lia.
Qed.

Lemma serve_all_conditional env e path c table reqs : ∀ s k,
  live_config s = Some c →
  Endpoints c = Some table →
  table !! path = Some e →
  Type_ e = "conditional_error" →
  validateEndpointConfig e = None →
  Forall (λ cr : Clock * Request, URLPath cr.2 = path) reqs →
  conditional_count path (stats s) = k →
  0 ≤ k →
  k + Z.of_nat (length reqs) ≤ max_int64 →
  (serve_all env reqs s).2
  = map (λ j : nat, Some (response_at e (heap_of s) (k + Z.of_nat j + 1)))
        (seq 0 (length reqs)).
Proof.
  induction reqs as [|[clk r] reqs IH];
    intros s k Hc Ht He Hty Hvalid Hpaths Hk Hk0 Hlen; [done|].
  apply Forall_cons in Hpaths as [Hr Hpaths]. simpl in Hr. subst path.
  cbn [length] in Hlen.
  cbn [serve_all].
  rewrite (handleRequest_configured env clk r s c table e) by done.
  destruct (handleDynamicEndpoint_conditional clk r e s k)
    as (s' & Hstep & Hmgr & Hk'); [done..|lia|].
  rewrite Hstep.
  specialize (IH s' (k + 1)).
  destruct (serve_all env reqs s') as [s2 resps] eqn:Hrest.
  cbn [snd] in *. rewrite IH; try done; try lia.
  - cbn [length seq map]. f_equal.
    + do 2 f_equal. lia.
    + rewrite <- seq_shift, map_map. unfold heap_of, manager_of in *.
      rewrite Hmgr. apply map_ext. intros j. do 2 f_equal. lia.
  - unfold live_config in *. by rewrite Hmgr.
Qed.

Lemma is_error_response_at e h n :
  status_in_error_range (StatusCode e) →
  is_error_response e (Some (response_at e h n))
  = (n `mod` ErrorEveryN e =? 0).
Proof.
  intros Hsc. unfold response_at.
  destruct (n `mod` ErrorEveryN e =? 0); cbn -[Z.eqb].
  - rewrite Z.eqb_refl. by rewrite bool_decide_eq_true_2 by done.
  - unfold status_in_error_range in Hsc.
    destruct (deref h (SuccessResponse e)); [|done].
    replace (200 =? StatusCode e) with false by lia. done.
Qed.

Lemma count_filter_map {A B} (f : A → B) (p : B → bool) (q : A → bool) l :
  (∀ x, p (f x) = q x) →
  length (filter (λ y, p y = true) (map f l))
  = length (filter (λ x, q x = true) l).
Proof.
  intros Hpq. induction l as [|x l IH]; [done|].
  cbn [map]. rewrite !filter_cons, Hpq.
  repeat case_decide; simpl; congruence.
Qed.

(** C1: a [conditional_error] endpoint that passed validation is
    registered under [path], its counter is at zero, and M requests for
    [path] (few enough for the 64 bit counter) are served one after the
    other. Then there is one response per request; the response at the
    1-indexed position [i + 1] is the error response (the endpoint's
    status code, body [{"error": "Conditional error triggered"}]) when
    [error_every_n] divides the position and status 200 with the
    [success_response] body otherwise; the error responses number
    [M / error_every_n], rounded down; and with [error_every_n = 1]
    every response is the error response. *)
Theorem conditional_error_every_nth
    (env : Env) (s : Server) (c : Config)
    (table : gmap string EndpointConfig) (path : string)
    (e : EndpointConfig) (reqs : list (Clock * Request)) :
  live_config s = Some c →
  Endpoints c = Some table →
  table !! path = Some e →
  Type_ e = "conditional_error" →
  validateEndpointConfig e = None →
  conditional_count path (stats s) = 0 →
  Forall (λ cr : Clock * Request, URLPath cr.2 = path) reqs →
  Z.of_nat (length reqs) ≤ max_int64 →
  let resps := (serve_all env reqs s).2 in
  length resps = length reqs
  ∧ (∀ i : nat, (i < length reqs)%nat →
       resps !! i
       = Some (Some (if (Z.of_nat i + 1) `mod` ErrorEveryN e =? 0
                     then conditional_error_response e
                     else conditional_success_response e (heap_of s))))
  ∧ count_errors e resps = Z.of_nat (length reqs) `div` ErrorEveryN e
  ∧ (ErrorEveryN e = 1 →
     Forall (λ resp, resp = Some (conditional_error_response e)) resps).
Proof.
  intros Hc Ht He Hty Hvalid Hk Hpaths Hlen resps.
  pose proof (serve_all_conditional env e path c table reqs s 0
                Hc Ht He Hty Hvalid Hpaths Hk) as Hresps.
  fold resps in Hresps. rewrite Hresps by lia. clear Hresps resps.
  destruct (validateEndpointConfig_conditional e Hty Hvalid) as [Hn Hsc].
  split_and!.
  - by rewrite length_map, length_seq.
  - intros i Hi.
    change map with (@fmap list _) at 1.
    rewrite list_lookup_fmap, lookup_seq_lt by done. simpl.
    unfold response_at. do 3 f_equal; lia.
  - unfold count_errors.
    rewrite (count_filter_map _ (is_error_response e)
               (λ j : nat, (Z.of_nat j + 1) `mod` ErrorEveryN e =? 0)).
    + apply multiples_count. lia.
    + intros j. rewrite is_error_response_at by done. f_equal.
  - intros H1. apply Forall_forall. intros resp Hin.
    apply list_elem_of_In, in_map_iff in Hin as (j & <- & _).
    unfold response_at. rewrite H1, Z.mod_1_r. done.
Qed.

Lemma conditional_error_every_nth_witness :
  let e := flaky_endpoint in
  let s := default_server in
  let reqs := replicate 6 (sample_clock, request "GET" "/api/flaky") in
  let resps := (serve_all sample_env reqs s).2 in
  length resps = length reqs
  ∧ (∀ i : nat, (i < length reqs)%nat →
       resps !! i
       = Some (Some (if (Z.of_nat i + 1) `mod` ErrorEveryN e =? 0
                     then conditional_error_response e
                     else conditional_success_response e (heap_of s))))
  ∧ count_errors e resps = Z.of_nat (length reqs) `div` ErrorEveryN e
  ∧ (ErrorEveryN e = 1 →
     Forall (λ resp, resp = Some (conditional_error_response e)) resps).
Proof.
  intros e s reqs.
  apply (conditional_error_every_nth sample_env s default_config
           (default ∅ (Endpoints default_config)) "/api/flaky" e reqs).
  - by vm_compute.
  - by vm_compute.
  - by vm_compute.
  - reflexivity.
  - reflexivity.
  - reflexivity.
  - repeat constructor.
  - vm_compute. discriminate.
Defined.

(** Six requests to [/api/flaky] of the default configuration. *)
Example flaky_six_statuses :
  map (λ resp, status <$> resp)
      (serve_all sample_env
         (replicate 6 (sample_clock, request "GET" "/api/flaky"))
         default_server).2
  = [Some 200; Some 200; Some 503; Some 200; Some 200; Some 503].
Proof. by vm_compute. Qed.

End ConditionalError.

(** ** Paths below the static root *)

Section Paths.

Import filepath.










































End Paths.

(** ** Static files *)

Section StaticFiles.

Import server.









(** The same path in a [CONNECT] request is not cleaned by the mux and
    reaches the handler: the guard lets it pass and the file layer
    answers 400. *)
Lemma traversal_path_reaching_handler :
  let r := request "CONNECT" "/../etc/passwd" in
  (ServeHTTP sample_env sample_clock sample_clock r default_server).2
  = Some (http_Error "invalid URL path" 400).
Proof. by vm_compute. Qed.

(** Only with a URL path that does not begin with [/], which no request
    line gives, does the guard answer 403. *)
Lemma relative_traversal_forbidden :
  (handleStaticFile sample_env sample_clock (request "GET" "../etc/passwd")
                    "./static" default_server).2
  = http_Error "Forbidden" 403.
Proof. by vm_compute. Qed.

End StaticFiles.

(** ** Validation of whole configurations *)

Lemma validateEndpoints_None entries :
  validateEndpoints entries = None
  ↔ Forall (λ pe : string * EndpointConfig,
              pe.1 ≠ "" ∧ validateEndpointConfig pe.2 = None) entries.
Proof.
  induction entries as [|[path e] entries IH]; simpl.
  - split; [constructor|done].
  - destruct (String.eqb path "") eqn:Hp.
    + apply eqb_string_true in Hp. split; [done|].
      intros [[Hne _] _]%Forall_cons. simpl in Hne. congruence.
    + apply eqb_string_false in Hp.
      destruct (validateEndpointConfig e) as [err|] eqn:He.
      * split; [done|]. intros [[_ Hv] _]%Forall_cons.
        simpl in Hv. congruence.
      * rewrite IH. split.
        -- intros Hall. by constructor.
        -- by intros [_ Hall]%Forall_cons.
Qed.

Lemma validateEndpoints_table (table : gmap string EndpointConfig) :
  validateEndpoints (map_to_list table) = None ↔ valid_table table.
Proof.
  rewrite validateEndpoints_None. unfold valid_table.
  rewrite map_Forall_to_list. apply Forall_proper; [|done].
  by intros [path e].
Qed.

Lemma validateConfig_valid c : validateConfig c = None ↔ valid_config c.
Proof.
  unfold validateConfig, valid_config.
  destruct ((Port (Server c) <? 1) || (Port (Server c) >? 65535)) eqn:Hport.
  { split; [done|]. intros [Hp _]. lia. }
  destruct (String.eqb (Host (Server c)) "") eqn:Hhost.
  { apply eqb_string_true in Hhost. split; [done|]. by intros (_ & Hh & _). }
  destruct (String.eqb (StaticDir (Server c)) "") eqn:Hdir.
  { apply eqb_string_true in Hdir. split; [done|]. by intros (_ & _ & Hd & _). }
  apply eqb_string_false in Hhost, Hdir.
  rewrite validateEndpoints_table. split; [|tauto].
  intros Ht. split_and!; try done; lia.
Qed.

(** X1: [validateConfig] returns no error exactly when the port lies in
    1..65535, the host and the static directory are non-empty, no
    endpoint path is empty and every endpoint passes
    [validateEndpointConfig]; and whether the endpoint loop returns an
    error does not depend on the order in which the table is visited. *)
Theorem validateConfig_accepts_exactly (c : Config) :
  (validateConfig c = None ↔ valid_config c)
  ∧ ∀ entries,
      entries ≡ₚ map_to_list (default ∅ (Endpoints c)) →
      (validateEndpoints entries = None
       ↔ validateEndpoints (map_to_list (default ∅ (Endpoints c))) = None).
Proof.
  split; [apply validateConfig_valid|].
  intros entries Hperm. rewrite !validateEndpoints_None. by rewrite Hperm.
Qed.

(** ** Outcomes of the configuration mutators *)

Lemma persist_fails_dec m : persist_fails m ∨ ¬ persist_fails m.
Proof.
  unfold persist_fails.
  destruct (mkdir_ok (disk m)), (write_ok (disk m)); intuition congruence.
Qed.

Lemma saveConfigToFile_ok m c :
  ¬ persist_fails m →
  saveConfigToFile m c
  = (set_file m (Complete (view_config (heap m) c)), None).
Proof.
  unfold persist_fails, saveConfigToFile. intros Hok.
  destruct (mkdir_ok (disk m)), (write_ok (disk m)); simpl; try done;
    exfalso; apply Hok; auto.
Qed.

Lemma saveConfigToFile_fail m c :
  persist_fails m →
  ∃ err, saveConfigToFile m c = (after_failed_save m, Some err).
Proof.
  unfold persist_fails, saveConfigToFile, after_failed_save.
  destruct (mkdir_ok (disk m)), (write_ok (disk m)); simpl; intros [?|?];
    try done; eauto.
Qed.

Lemma after_failed_save_config m :
  config (after_failed_save m) = config m
  ∧ heap (after_failed_save m) = heap m
  ∧ configPath (after_failed_save m) = configPath m.
Proof. unfold after_failed_save. by case_match. Qed.

Lemma live_endpoint_config m c path :
  config m = Some c →
  live_endpoint m path = default ∅ (Endpoints c) !! path.
Proof.
  intros Hc. unfold live_endpoint. rewrite Hc.
  destruct c as [srv [table|]]; simpl; [done|]. by rewrite lookup_empty.
Qed.

Lemma UpdateConfig_success newConfig m :
  (UpdateConfig newConfig m).2 = None →
  validateConfig newConfig = None
  ∧ config (UpdateConfig newConfig m).1 = Some newConfig.
Proof.
  unfold UpdateConfig.
  destruct (validateConfig newConfig) as [err|]; [done|].
  by destruct (saveConfigToFile m newConfig) as [m' [err|]].
Qed.

Lemma UpdateConfig_invalid newConfig m :
  validateConfig newConfig ≠ None → (UpdateConfig newConfig m).1 = m.
Proof.
  unfold UpdateConfig. by destruct (validateConfig newConfig).
Qed.

(** X2: [UpdateConfig] returns no error exactly when the new
    configuration passes validation and the file can be written; it then
    holds the new configuration and the file holds, in full, what the
    new configuration shows. On an error the manager holds the
    configuration it held. When validation fails nothing at all is
    touched; when the save fails the file is untouched if the directory
    could not be made or the file could not be opened, and torn if the
    write failed after the file was opened. *)
Theorem UpdateConfig_outcome (newConfig : Config) (m : Manager) :
  ((UpdateConfig newConfig m).2 = None
   ↔ validateConfig newConfig = None ∧ ¬ persist_fails m)
  ∧ ((UpdateConfig newConfig m).2 = None →
     config (UpdateConfig newConfig m).1 = Some newConfig
     ∧ heap (UpdateConfig newConfig m).1 = heap m
     ∧ file (disk (UpdateConfig newConfig m).1)
       = Some (Complete (view_config (heap m) newConfig)))
  ∧ ((UpdateConfig newConfig m).2 ≠ None →
     config (UpdateConfig newConfig m).1 = config m
     ∧ heap (UpdateConfig newConfig m).1 = heap m)
  ∧ (validateConfig newConfig ≠ None → (UpdateConfig newConfig m).1 = m)
  ∧ (validateConfig newConfig = None → persist_fails m →
     (UpdateConfig newConfig m).1 = after_failed_save m
     ∧ (mkdir_ok (disk m) = false ∨ write_opens (disk m) = false →
        (UpdateConfig newConfig m).1 = m)
     ∧ (mkdir_ok (disk m) = true → write_opens (disk m) = true →
        file (disk (UpdateConfig newConfig m).1) = Some Torn)).
Proof.
  unfold UpdateConfig.
  destruct (validateConfig newConfig) as [err|] eqn:Hv.
  { simpl. split_and!; [|done..]. split; [done|]. by intros [? _]. }
  destruct (persist_fails_dec m) as [Hfail|Hok].
  - destruct (saveConfigToFile_fail m newConfig Hfail) as [err ->]. simpl.
    destruct (after_failed_save_config m) as (Hc & Hh & _).
    split_and!; [|done..|].
    + split; [done|]. by intros [_ ?].
    + intros _ _. unfold after_failed_save. split_and!; [done|..].
      * by intros [->| ->]; rewrite ?andb_false_r.
      * by intros -> ->.
  - rewrite saveConfigToFile_ok by done. simpl. split_and!; done.
Qed.

(** On a disk that runs full, a valid configuration is refused with the
    save error; the live configuration stays, and the file, which held
    a configuration, is left torn. *)
Lemma UpdateConfig_on_full_disk :
  let m := default_manager_full in
  validateConfig default_config = None
  ∧ (UpdateConfig default_config m).2
    = Some (FailedToSaveConfig FailedToWriteConfigFile)
  ∧ config (UpdateConfig default_config m).1 = config m
  ∧ is_Some (file (disk m))
  ∧ file (disk m) ≠ Some Torn
  ∧ file (disk (UpdateConfig default_config m).1) = Some Torn.
Proof. vm_compute. split_and!; eauto; discriminate. Qed.

(** X3: on a loaded configuration, with a valid endpoint and a writable
    file, [UpdateEndpoint] returns no error; afterwards the path maps to
    the endpoint, every other path maps to what it mapped to before, the
    server section is untouched, and the file holds what the live
    configuration shows. *)
Theorem UpdateEndpoint_success
    (path : string) (e : EndpointConfig) (m : Manager) (c : Config) :
  config m = Some c →
  validateEndpointConfig e = None →
  ¬ persist_fails m →
  (UpdateEndpoint path e m).2 = None
  ∧ live_endpoint (UpdateEndpoint path e m).1 path = Some e
  ∧ (∀ q, q ≠ path →
       live_endpoint (UpdateEndpoint path e m).1 q = live_endpoint m q)
  ∧ (Server <$> config (UpdateEndpoint path e m).1) = Some (Server c)
  ∧ synced (UpdateEndpoint path e m).1.
Proof.
  intros Hc Hv Hok. unfold UpdateEndpoint. rewrite Hc, Hv.
  rewrite saveConfigToFile_ok by done. simpl.
  split_and!; try done.
  - unfold live_endpoint. simpl. apply lookup_insert_eq.
  - intros q Hq. rewrite (live_endpoint_config m c q Hc).
    unfold live_endpoint. simpl. by apply lookup_insert_ne.
Qed.

Lemma UpdateEndpoint_success_witness :
  (UpdateEndpoint "/api/test" sample_error_endpoint default_manager).2 = None
  ∧ live_endpoint
      (UpdateEndpoint "/api/test" sample_error_endpoint default_manager).1
      "/api/test" = Some sample_error_endpoint
  ∧ (∀ q, q ≠ "/api/test" →
       live_endpoint
         (UpdateEndpoint "/api/test" sample_error_endpoint default_manager).1 q
       = live_endpoint default_manager q)
  ∧ (Server <$> config
       (UpdateEndpoint "/api/test" sample_error_endpoint default_manager).1)
    = Some (Server default_config)
  ∧ synced (UpdateEndpoint "/api/test" sample_error_endpoint default_manager).1.
Proof.
  apply (UpdateEndpoint_success "/api/test" sample_error_endpoint
           default_manager default_config).
  - reflexivity.
  - reflexivity.
  - intros [H|H]; discriminate H.
Defined.

(** X4: on a loaded configuration with a non-nil table and a writable
    file, [RemoveEndpoint] returns no error; afterwards the path is
    absent, every other path maps to what it mapped to before, and the
    file holds what the live configuration shows. *)
Theorem RemoveEndpoint_success
    (path : string) (m : Manager) (c : Config)
    (table : gmap string EndpointConfig) :
  config m = Some c →
  Endpoints c = Some table →
  ¬ persist_fails m →
  (RemoveEndpoint path m).2 = None
  ∧ live_endpoint (RemoveEndpoint path m).1 path = None
  ∧ (∀ q, q ≠ path →
       live_endpoint (RemoveEndpoint path m).1 q = live_endpoint m q)
  ∧ (Server <$> config (RemoveEndpoint path m).1) = Some (Server c)
  ∧ synced (RemoveEndpoint path m).1.
Proof.
  intros Hc Ht Hok. unfold RemoveEndpoint. rewrite Hc, Ht.
  rewrite saveConfigToFile_ok by done. simpl.
  split_and!; try done.
  - unfold live_endpoint. simpl. apply lookup_delete_eq.
  - intros q Hq. rewrite (live_endpoint_config m c q Hc), Ht.
    unfold live_endpoint. simpl. by apply lookup_delete_ne.
Qed.

Lemma RemoveEndpoint_success_witness :
  (RemoveEndpoint "/api/error" default_manager).2 = None
  ∧ live_endpoint (RemoveEndpoint "/api/error" default_manager).1
                  "/api/error" = None
  ∧ (∀ q, q ≠ "/api/error" →
       live_endpoint (RemoveEndpoint "/api/error" default_manager).1 q
       = live_endpoint default_manager q)
  ∧ (Server <$> config (RemoveEndpoint "/api/error" default_manager).1)
    = Some (Server default_config)
  ∧ synced (RemoveEndpoint "/api/error" default_manager).1.
Proof.
  apply (RemoveEndpoint_success "/api/error" default_manager default_config
           (default ∅ (Endpoints default_config))).
  - reflexivity.
  - reflexivity.
  - intros [H|H]; discriminate H.
Defined.

(** X5: adding an endpoint and removing it again, both with success,
    leaves the table of before without the path. So the configuration is
    restored exactly when the table was non-nil and did not have the
    path; a nil table comes back as an empty one. *)
Theorem UpdateEndpoint_then_RemoveEndpoint
    (path : string) (e : EndpointConfig) (m : Manager) (c : Config) :
  config m = Some c →
  validateEndpointConfig e = None →
  ¬ persist_fails m →
  let m1 := (UpdateEndpoint path e m).1 in
  let m2 := (RemoveEndpoint path m1).1 in
  (RemoveEndpoint path m1).2 = None
  ∧ config m2
    = Some {| Server := Server c;
              Endpoints := Some (delete path (default ∅ (Endpoints c))) |}
  ∧ (config m2 = Some c
     ↔ ∃ table, Endpoints c = Some table ∧ table !! path = None).
Proof.
  intros Hc Hv Hok m1 m2. subst m1 m2.
  unfold UpdateEndpoint. rewrite Hc, Hv.
  rewrite saveConfigToFile_ok by done. cbn [fst].
  unfold RemoveEndpoint. cbn [config set_file set_config Endpoints Server].
  rewrite saveConfigToFile_ok by done. cbn [fst snd].
  cbn [config set_file set_config].
  rewrite delete_insert_eq.
  split_and!; [done..|]. split.
  - intros [= Heq]. destruct c as [srv [table|]]; simpl in *; [|done].
    exists table. split; [done|].
    injection Heq as Heq. rewrite <- Heq. apply lookup_delete_eq.
  - intros (table & Ht & Habs). rewrite Ht. simpl.
    rewrite delete_id by done. rewrite <- Ht. by rewrite config_eta.
Qed.

Lemma UpdateEndpoint_then_RemoveEndpoint_witness :
  let m1 := (UpdateEndpoint "/api/test" sample_error_endpoint
                            default_manager).1 in
  let m2 := (RemoveEndpoint "/api/test" m1).1 in
  (RemoveEndpoint "/api/test" m1).2 = None
  ∧ config m2
    = Some {| Server := Server default_config;
              Endpoints :=
                Some (delete "/api/test"
                             (default ∅ (Endpoints default_config))) |}
  ∧ (config m2 = Some default_config
     ↔ ∃ table, Endpoints default_config = Some table
                ∧ table !! "/api/test" = None).
Proof.
  apply (UpdateEndpoint_then_RemoveEndpoint "/api/test" sample_error_endpoint
           default_manager default_config).
  - reflexivity.
  - reflexivity.
  - intros [H|H]; discriminate H.
Defined.

(** ** Validity of the live configuration *)

Lemma valid_table_insert table path e :
  valid_table table → path ≠ "" → validateEndpointConfig e = None →
  valid_table (<[path := e]> table).
Proof. intros Ht Hp He. by apply map_Forall_insert_2. Qed.

Lemma valid_table_delete table path :
  valid_table table → valid_table (delete path table).
Proof. intros Ht. by apply map_Forall_delete. Qed.

Lemma valid_table_empty : valid_table ∅.
Proof. apply map_Forall_empty. Qed.

(** The default configuration passes validation, wherever its JSON
    objects are allocated. *)
Lemma createDefaultConfig_valid h :
  validateConfig (createDefaultConfig h).1 = None.
Proof.
  apply validateConfig_valid. unfold createDefaultConfig, alloc. simpl.
  split_and!; try done.
  repeat (apply valid_table_insert; [|done|done]).
  apply valid_table_empty.
Qed.

Lemma saveConfigToFile_valid_live m c :
  valid_live m → valid_live (saveConfigToFile m c).1.
Proof.
  intros Hm c' Hc'. rewrite saveConfigToFile_config in Hc'. by apply Hm.
Qed.

Lemma UpdateConfig_valid_live newConfig m :
  valid_live m → valid_live (UpdateConfig newConfig m).1.
Proof.
  intros Hm. unfold UpdateConfig.
  destruct (validateConfig newConfig) as [err|] eqn:Hv; [done|].
  pose proof (saveConfigToFile_valid_live m newConfig Hm) as Hs.
  destruct (saveConfigToFile m newConfig) as [m' [err|]]; simpl in *; [done|].
  intros c [= <-]. done.
Qed.

Lemma RemoveEndpoint_valid_live path m :
  valid_live m → valid_live (RemoveEndpoint path m).1.
Proof.
  intros Hm. unfold RemoveEndpoint.
  destruct (config m) as [c|] eqn:Hc; [|done].
  destruct (Endpoints c) as [table|] eqn:Ht; [|done].
  set (c' := {| Server := Server c; Endpoints := Some (delete path table) |}).
  assert (validateConfig c' = None) as Hc'.
  { apply validateConfig_valid.
    specialize (Hm c Hc). apply validateConfig_valid in Hm.
    destruct Hm as (? & ? & ? & Hm). rewrite Ht in Hm.
    subst c'. unfold valid_config. simpl.
    split_and!; try done; try lia. by apply valid_table_delete. }
  pose proof (saveConfigToFile_config (set_config m (Some c')) c') as Hk.
  destruct (saveConfigToFile (set_config m (Some c')) c') as [m' [err|]];
    simpl in *; intros c0 Hc0; rewrite Hk in Hc0; by injection Hc0 as <-.
Qed.

Lemma UpdateEndpoint_valid_live path e m :
  path ≠ "" → valid_live m → valid_live (UpdateEndpoint path e m).1.
Proof.
  intros Hp Hm. unfold UpdateEndpoint.
  destruct (config m) as [c|] eqn:Hc; [|done].
  destruct (validateEndpointConfig e) as [err|] eqn:He; [done|].
  set (c' := {| Server := Server c;
                Endpoints := Some (<[path := e]> (default ∅ (Endpoints c))) |}).
  assert (validateConfig c' = None) as Hc'.
  { apply validateConfig_valid.
    specialize (Hm c Hc). apply validateConfig_valid in Hm.
    destruct Hm as (? & ? & ? & Hm).
    subst c'. unfold valid_config. simpl.
    split_and!; try done; try lia. by apply valid_table_insert. }
  pose proof (saveConfigToFile_config (set_config m (Some c')) c') as Hk.
  destruct (saveConfigToFile (set_config m (Some c')) c') as [m' [err|]];
    simpl in *; intros c0 Hc0; rewrite Hk in Hc0; by injection Hc0 as <-.
Qed.

Lemma LoadConfig_valid_live r m :
  valid_live m → valid_live (LoadConfig r m).1.
Proof.
  intros Hm. unfold LoadConfig. destruct r as [| | |c]; try done.
  - pose proof (createDefaultConfig_valid (heap m)) as Hd.
    destruct (createDefaultConfig (heap m)) as [d h]. simpl in Hd.
    pose proof (saveConfigToFile_config (set_heap m h) d) as Hk.
    destruct (saveConfigToFile (set_heap m h) d) as [m' [err|]]; simpl in *.
    + intros c0 Hc0. rewrite Hk in Hc0. by apply Hm.
    + intros c0 [= <-]. done.
  - destruct (validateConfig c) as [err|] eqn:Hv; [done|].
    simpl. by intros c0 [= <-].
Qed.

(** X6: if the live configuration passes [validateConfig], it still does
    after [UpdateConfig], after [RemoveEndpoint], after [LoadConfig], and
    after [UpdateEndpoint] with a non-empty path, whatever these calls
    return. *)
Theorem manager_keeps_valid_configuration (m : Manager) :
  valid_live m →
  (∀ newConfig, valid_live (UpdateConfig newConfig m).1)
  ∧ (∀ path, valid_live (RemoveEndpoint path m).1)
  ∧ (∀ path e, path ≠ "" → valid_live (UpdateEndpoint path e m).1)
  ∧ (∀ r, valid_live (LoadConfig r m).1).
Proof.
  intros Hm. split_and!.
  - intros newConfig. by apply UpdateConfig_valid_live.
  - intros path. by apply RemoveEndpoint_valid_live.
  - intros path e Hp. by apply UpdateEndpoint_valid_live.
  - intros r. by apply LoadConfig_valid_live.
Qed.

Lemma default_manager_valid_live : valid_live default_manager.
Proof. intros c [= <-]. by vm_compute. Qed.

Lemma manager_keeps_valid_configuration_witness :
  (∀ newConfig, valid_live (UpdateConfig newConfig default_manager).1)
  ∧ (∀ path, valid_live (RemoveEndpoint path default_manager).1)
  ∧ (∀ path e, path ≠ "" →
       valid_live (UpdateEndpoint path e default_manager).1)
  ∧ (∀ r, valid_live (LoadConfig r default_manager).1).
Proof.
  apply (manager_keeps_valid_configuration default_manager).
  intros c [= <-]. by vm_compute.
Defined.

(** X7: [UpdateEndpoint] does not check the path. With the empty path, a
    valid endpoint and a writable file it returns no error, and the
    configuration it installs and writes to the file fails
    [validateConfig], so that [LoadConfig] refuses to load it back. *)
Theorem UpdateEndpoint_accepts_empty_path
    (e : EndpointConfig) (m : Manager) (c : Config) :
  config m = Some c →
  validateEndpointConfig e = None →
  ¬ persist_fails m →
  (UpdateEndpoint "" e m).2 = None
  ∧ ∃ c', config (UpdateEndpoint "" e m).1 = Some c'
          ∧ file (disk (UpdateEndpoint "" e m).1)
            = Some (Complete (view_config (heap m) c'))
          ∧ validateConfig c' ≠ None
          ∧ ∀ m0, (LoadConfig (Parsed c') m0).2 ≠ None.
Proof.
  intros Hc Hv Hok. unfold UpdateEndpoint. rewrite Hc, Hv.
  rewrite saveConfigToFile_ok by done. simpl. split; [done|].
  eexists. split; [done|]. split; [done|].
  assert (validateConfig
            {| Server := Server c;
               Endpoints := Some (<["" := e]> (default ∅ (Endpoints c))) |}
          ≠ None) as Hbad.
  { rewrite validateConfig_valid. intros (_ & _ & _ & Ht).
    specialize (Ht "" e). simpl in Ht.
    destruct Ht as [Hne _]; [apply lookup_insert_eq|done]. }
  split; [done|]. intros m0. unfold LoadConfig.
  destruct (validateConfig _) as [err|]; done.
Qed.

Lemma UpdateEndpoint_accepts_empty_path_witness :
  (UpdateEndpoint "" sample_error_endpoint default_manager).2 = None
  ∧ ∃ c', config (UpdateEndpoint "" sample_error_endpoint default_manager).1
          = Some c'
          ∧ file (disk (UpdateEndpoint "" sample_error_endpoint
                                       default_manager).1)
            = Some (Complete (view_config (heap default_manager) c'))
          ∧ validateConfig c' ≠ None
          ∧ ∀ m0, (LoadConfig (Parsed c') m0).2 ≠ None.
Proof.
  apply (UpdateEndpoint_accepts_empty_path sample_error_endpoint
           default_manager default_config).
  - reflexivity.
  - reflexivity.
  - intros [H|H]; discriminate H.
Defined.

(** X8: [LoadConfig] succeeds exactly when the file is missing and the
    default configuration can be written, or the file parses to a
    configuration that passes validation. After a success the manager
    holds a configuration that passes validation (the default one, also
    written to the file, or the parsed one). After a failure it holds
    the configuration it held before; the file is untouched when there
    was a file to read, and when the default could not be written it is
    what the failed save leaves. *)
Theorem LoadConfig_outcome (r : FileRead) (m : Manager) :
  ((LoadConfig r m).2 = None
   ↔ (r = FileMissing ∧ ¬ persist_fails m)
     ∨ (∃ c, r = Parsed c ∧ validateConfig c = None))
  ∧ ((LoadConfig r m).2 = None →
     ∃ c, config (LoadConfig r m).1 = Some c
          ∧ validateConfig c = None
          ∧ (r = FileMissing →
             c = (createDefaultConfig (heap m)).1 ∧ synced (LoadConfig r m).1)
          ∧ (∀ c0, r = Parsed c0 → c = c0))
  ∧ ((LoadConfig r m).2 ≠ None →
     config (LoadConfig r m).1 = config m
     ∧ (r ≠ FileMissing → (LoadConfig r m).1 = m)
     ∧ (r = FileMissing →
        disk (LoadConfig r m).1 = disk (after_failed_save m))).
Proof.
  unfold LoadConfig. destruct r as [| | |c].
  - pose proof (createDefaultConfig_valid (heap m)) as Hd.
    destruct (createDefaultConfig (heap m)) as [d h]. simpl in Hd.
    destruct (persist_fails_dec m) as [Hfail|Hok].
    + destruct (saveConfigToFile_fail (set_heap m h) d Hfail) as [err ->].
      simpl. split_and!; [|done|].
      * split; [done|]. intros [[_ ?]|(c & ? & _)]; done.
      * intros _. unfold after_failed_save. cbn [disk set_heap].
        split_and!; [by case_match|done|]. intros _. by case_match.
    + rewrite (saveConfigToFile_ok (set_heap m h) d) by done. simpl.
      split_and!; [|..|done].
      * split; [auto|done].
      * intros _. exists d. split_and!; try done.
  - simpl. split_and!; [|done..].
    split; [done|]. intros [[? _]|(c & ? & _)]; done.
  - simpl. split_and!; [|done..].
    split; [done|]. intros [[? _]|(c & ? & _)]; done.
  - destruct (validateConfig c) as [err|] eqn:Hv; simpl.
    + split_and!; [|done..].
      split; [done|]. intros [[? _]|(c0 & [= <-] & ?)]; congruence.
    + split_and!; [|..|done].
      * split; [eauto|done].
      * intros _. exists c. split_and!; try done. by intros c0 [= <-].
Qed.

(** ** What a snapshot shows *)

(** X9: [GetConfig] returns nil exactly when no configuration is loaded.
    Otherwise the snapshot has the server section of the live
    configuration and a table with exactly the live entries, a nil table
    being handed out as an empty one; when the live table is not nil the
    snapshot shows what the live configuration shows. *)
Theorem GetConfig_snapshot (m : Manager) :
  (GetConfig m = None ↔ config m = None)
  ∧ ∀ c, config m = Some c →
      ∃ snapshot,
        GetConfig m = Some snapshot
        ∧ Server snapshot = Server c
        ∧ Endpoints snapshot = Some (default ∅ (Endpoints c))
        ∧ (∀ path, default ∅ (Endpoints snapshot) !! path
                   = live_endpoint m path)
        ∧ (is_Some (Endpoints c) →
           view_config (heap m) snapshot = view_config (heap m) c).
Proof.
  unfold GetConfig. split.
  - by destruct (config m).
  - intros c Hc. rewrite Hc. eexists. split; [done|].
    simpl. rewrite copyEndpoints_entries. split_and!; try done.
    + intros path. by rewrite (live_endpoint_config m c path Hc).
    + intros [table Ht]. destruct c as [srv tbl]. simpl in *. by subst tbl.
Qed.

(** ** Statistics of the whole server *)

Ltac in_range := unfold in_int64, min_int64, max_int64 in *; lia.

Lemma wrap64_add_l a b : wrap64 (wrap64 a + b) = wrap64 (a + b).
Proof.
  unfold wrap64. f_equal.
  replace ((a + 2 ^ 63) `mod` 2 ^ 64 - 2 ^ 63 + b + 2 ^ 63)
    with ((a + 2 ^ 63) `mod` 2 ^ 64 + b) by lia.
  rewrite Z.add_mod_idemp_l by lia. f_equal. lia.
Qed.

Lemma sum_over_empty g : sum_over g ∅ = 0.
Proof. unfold sum_over. by rewrite map_fold_empty. Qed.

Lemma sum_over_insert_fresh g (eps : gmap string EndpointStats.t) p es :
  eps !! p = None → sum_over g (<[p := es]> eps) = g es + sum_over g eps.
Proof.
  intros Hp. unfold sum_over.
  rewrite map_fold_insert_L; [done| |done]. intros. lia.
Qed.

Lemma sum_over_alter g f (eps : gmap string EndpointStats.t) p es :
  eps !! p = Some es →
  sum_over g (alter f p eps) = sum_over g eps - g es + g (f es).
Proof.
  intros Hp.
  rewrite <- (insert_delete_id eps p es) at 2 by done.
  rewrite sum_over_insert_fresh by apply lookup_delete_eq.
  assert (alter f p eps = <[p := f es]> (delete p eps)) as ->.
  { apply map_eq. intros q. destruct (decide (p = q)) as [<-|Hne].
    - by rewrite lookup_alter_eq, lookup_insert_eq, Hp.
    - by rewrite lookup_alter_ne, lookup_insert_ne, lookup_delete_ne. }
  rewrite sum_over_insert_fresh by apply lookup_delete_eq. lia.
Qed.

Lemma sum_over_lookup_le g (eps : gmap string EndpointStats.t) p es :
  map_Forall (λ _ x, 0 ≤ g x) eps →
  eps !! p = Some es → 0 ≤ g es ≤ sum_over g eps.
Proof.
  intros Hall Hp.
  rewrite <- (insert_delete_id eps p es) by done.
  rewrite sum_over_insert_fresh by apply lookup_delete_eq.
  assert (0 ≤ sum_over g (delete p eps)) as Hrest.
  { assert (map_Forall (λ _ x, 0 ≤ g x) (delete p eps)) as Hd
      by by apply map_Forall_delete.
    revert Hd. generalize (delete p eps). intros m.
    induction m as [|k v m Hk _ IH] using map_first_key_ind.
    - rewrite sum_over_empty. lia.
    - intros Hm. rewrite sum_over_insert_fresh by done.
      apply map_Forall_insert in Hm as [Hv Hm]; [|done].
      specialize (IH Hm). lia. }
  specialize (Hall p es Hp). simpl in Hall. lia.
Qed.

(** What stays true of the statistics of the server while requests are
    recorded. *)
Lemma record_request_totals n k ss pr :
  n < max_int64 →
  ServerStats.RequestCount ss = n →
  ServerStats.ErrorCount ss = k →
  sum_over EndpointStats.RequestCount (ServerStats.Endpoints ss) = n →
  sum_over EndpointStats.ErrorCount (ServerStats.Endpoints ss) = k →
  map_Forall (λ _ es, 0 ≤ EndpointStats.ErrorCount es
                      ∧ EndpointStats.ErrorCount es
                        ≤ EndpointStats.RequestCount es)
             (ServerStats.Endpoints ss) →
  let ss' := record_request ss pr in
  let k' := if 400 <=? rec_status pr.2 then k + 1 else k in
  ServerStats.RequestCount ss' = n + 1
  ∧ ServerStats.ErrorCount ss' = k'
  ∧ sum_over EndpointStats.RequestCount (ServerStats.Endpoints ss') = n + 1
  ∧ sum_over EndpointStats.ErrorCount (ServerStats.Endpoints ss') = k'
  ∧ map_Forall (λ _ es, 0 ≤ EndpointStats.ErrorCount es
                        ∧ EndpointStats.ErrorCount es
                          ≤ EndpointStats.RequestCount es)
               (ServerStats.Endpoints ss').
Proof.
  intros Hn Hreq Herr Hsr Hse Hall.
  assert (map_Forall (λ _ es, 0 ≤ EndpointStats.RequestCount es)
                     (ServerStats.Endpoints ss)) as Hnr.
  { intros q es Hq. specialize (Hall q es Hq). simpl in *. lia. }
  assert (map_Forall (λ _ es, 0 ≤ EndpointStats.ErrorCount es)
                     (ServerStats.Endpoints ss)) as Hne.
  { intros q es Hq. specialize (Hall q es Hq). simpl in *. lia. }
  assert (0 ≤ k ≤ n) as Hkn.
  { rewrite <- Hsr, <- Hse. clear -Hall.
    induction (ServerStats.Endpoints ss) as [|q es m Hq _ IH]
      using map_first_key_ind.
    - rewrite !sum_over_empty. lia.
    - rewrite !sum_over_insert_fresh by done.
      apply map_Forall_insert in Hall as [Hes Hm]; [|done].
      specialize (IH Hm). lia. }
  destruct pr as [p r]. unfold record_request, ServerStats.RecordRequest.
  cbn [fst snd]. cbn zeta.
  unfold ServerStats.on_endpoint, ServerStats.GetEndpointStats.
  cbn [ServerStats.Endpoints ServerStats.set_endpoints
       ServerStats.RequestCount ServerStats.ErrorCount].
  destruct (ServerStats.Endpoints ss !! p) as [es|] eqn:Hp;
    cbn [ServerStats.Endpoints ServerStats.set_endpoints
         ServerStats.RequestCount ServerStats.ErrorCount].
  - pose proof (sum_over_lookup_le _ _ p es Hnr Hp) as Hle1.
    pose proof (sum_over_lookup_le _ _ p es Hne Hp) as Hle2.
    pose proof (Hall p es Hp) as Hes. simpl in Hes.
    rewrite !(sum_over_alter _ _ _ p es Hp).
    unfold EndpointStats.RecordRequest.
    cbn [EndpointStats.RequestCount EndpointStats.ErrorCount].
    rewrite Hreq, Herr.
    rewrite !(wrap64_id (n + 1))
      by in_range.
    rewrite (wrap64_id (EndpointStats.RequestCount es + 1))
      by in_range.
    destruct (400 <=? rec_status r).
    + rewrite (wrap64_id (k + 1))
        by in_range.
      rewrite (wrap64_id (EndpointStats.ErrorCount es + 1))
        by in_range.
      split_and!; try lia.
      intros q x Hq. destruct (decide (p = q)) as [<-|Hne'].
      * rewrite lookup_alter_eq, Hp in Hq. injection Hq as <-. simpl.
        rewrite ?wrap64_id by in_range. lia.
      * rewrite lookup_alter_ne in Hq by done. by apply (Hall q).
    + split_and!; try lia.
      intros q x Hq. destruct (decide (p = q)) as [<-|Hne'].
      * rewrite lookup_alter_eq, Hp in Hq. injection Hq as <-. simpl.
        rewrite ?wrap64_id by in_range. lia.
      * rewrite lookup_alter_ne in Hq by done. by apply (Hall q).
  - rewrite !(sum_over_alter _ _ _ p (EndpointStats.new p))
      by apply lookup_insert_eq.
    rewrite !sum_over_insert_fresh by done.
    unfold EndpointStats.RecordRequest.
    cbn [EndpointStats.RequestCount EndpointStats.ErrorCount
         EndpointStats.new].
    rewrite Hreq, Herr.
    rewrite !(wrap64_id (n + 1))
      by in_range.
    change (wrap64 (0 + 1)) with 1.
    destruct (400 <=? rec_status r).
    + rewrite (wrap64_id (k + 1))
        by in_range.
      split_and!; try lia.
      intros q x Hq. destruct (decide (p = q)) as [<-|Hne'].
      * rewrite lookup_alter_eq, lookup_insert_eq in Hq.
        injection Hq as <-. simpl. rewrite ?wrap64_id by in_range. lia.
      * rewrite lookup_alter_ne, lookup_insert_ne in Hq by done.
        by apply (Hall q).
    + split_and!; try lia.
      intros q x Hq. destruct (decide (p = q)) as [<-|Hne'].
      * rewrite lookup_alter_eq, lookup_insert_eq in Hq.
        injection Hq as <-. simpl. rewrite ?wrap64_id by in_range. lia.
      * rewrite lookup_alter_ne, lookup_insert_ne in Hq by done.
        by apply (Hall q).
Qed.

Lemma record_requests_snoc reqs pr ss :
  record_requests (reqs ++ [pr]) ss
  = record_request (record_requests reqs ss) pr.
Proof. unfold record_requests. by rewrite fold_left_app. Qed.

Lemma record_requests_totals_inv t reqs :
  Z.of_nat (length reqs) ≤ max_int64 →
  totals_inv (Z.of_nat (length reqs)) (errors_among reqs.*2)
             (record_requests reqs (new_stats t)).
Proof.
  induction reqs as [|pr reqs IH] using rev_ind; intros Hlen.
  - split; simpl; first [done | apply sum_over_empty | apply map_Forall_empty].
  - rewrite length_app in Hlen. simpl in Hlen.
    destruct IH as [H1 H2 H3 H4 H5]; [lia|].
    rewrite record_requests_snoc, fmap_app.
    change (snd <$> [pr]) with [pr.2].
    rewrite errors_among_snoc, length_app. cbn [length].
    assert (Z.of_nat (length reqs) < max_int64) as Hlt by lia.
    destruct (record_request_totals _ _ _ pr Hlt H1 H2 H3 H4 H5)
      as (G1 & G2 & G3 & G4 & G5).
    replace (Z.of_nat (length reqs + 1)) with (Z.of_nat (length reqs) + 1)
      by lia.
    assert ((if 400 <=? rec_status pr.2
             then errors_among reqs.*2 + 1 else errors_among reqs.*2)
            = errors_among reqs.*2
              + (if 400 <=? rec_status pr.2 then 1 else 0)) as Heq
      by (case_match; lia).
    rewrite <- Heq. by split.
Qed.

(** X10: after any sequence of [ServerStats.RecordRequest] calls on
    fresh statistics (short enough for the 64 bit counters), the total
    request count is the number of calls and equals the sum of the
    request counts of all endpoints, and the total error count is the
    number of calls with a status of 400 or more and equals the sum of
    the error counts of all endpoints. *)
Theorem ServerStats_totals_are_sums
    (t : Z) (reqs : list (string * Recorded)) :
  Z.of_nat (length reqs) ≤ max_int64 →
  let ss := record_requests reqs (new_stats t) in
  ServerStats.RequestCount ss = Z.of_nat (length reqs)
  ∧ ServerStats.RequestCount ss
    = sum_over EndpointStats.RequestCount (ServerStats.Endpoints ss)
  ∧ ServerStats.ErrorCount ss = errors_among reqs.*2
  ∧ ServerStats.ErrorCount ss
    = sum_over EndpointStats.ErrorCount (ServerStats.Endpoints ss).
Proof.
  intros Hlen ss.
  destruct (record_requests_totals_inv t reqs Hlen) as [H1 H2 H3 H4 _].
  fold ss in H1, H2, H3, H4. by rewrite H3, H4.
Qed.

Lemma ServerStats_totals_are_sums_witness :
  let reqs := [("/api/error", took 5); ("/api/flaky", took 0);
               ("/api/error",
                {| rec_now := 7; rec_duration := ms 2; rec_status := 500 |})] in
  let ss := record_requests reqs (new_stats 0) in
  ServerStats.RequestCount ss = Z.of_nat (length reqs)
  ∧ ServerStats.RequestCount ss
    = sum_over EndpointStats.RequestCount (ServerStats.Endpoints ss)
  ∧ ServerStats.ErrorCount ss = errors_among reqs.*2
  ∧ ServerStats.ErrorCount ss
    = sum_over EndpointStats.ErrorCount (ServerStats.Endpoints ss).
Proof.
  intros reqs. apply (ServerStats_totals_are_sums 0 reqs).
  vm_compute. discriminate.
Defined.

Lemma recorded_for_snoc path reqs p r :
  recorded_for path (reqs ++ [(p, r)])
  = (recorded_for path reqs ++ (if decide (p = path) then [r] else []))%list.
Proof.
  unfold recorded_for. rewrite filter_app, fmap_app.
  rewrite filter_cons, filter_nil. simpl.
  by destruct (decide (p = path)).
Qed.

Lemma record_request_lookup ss p r q :
  ServerStats.Endpoints (record_request ss (p, r)) !! q
  = if decide (p = q)
    then Some (record_one
                 (default (EndpointStats.new p)
                          (ServerStats.Endpoints ss !! p)) r)
    else ServerStats.Endpoints ss !! q.
Proof.
  unfold record_request, ServerStats.RecordRequest, ServerStats.on_endpoint,
    ServerStats.GetEndpointStats.
  cbn [fst snd ServerStats.Endpoints ServerStats.set_endpoints].
  destruct (decide (p = q)) as [<-|Hne].
  - rewrite lookup_alter_eq.
    destruct (ServerStats.Endpoints ss !! p) as [es|] eqn:Hp;
      cbn [ServerStats.Endpoints ServerStats.set_endpoints].
    + by rewrite Hp.
    + by rewrite lookup_insert_eq.
  - rewrite lookup_alter_ne by done.
    destruct (ServerStats.Endpoints ss !! p) as [es|] eqn:Hp;
      cbn [ServerStats.Endpoints ServerStats.set_endpoints]; [done|].
    by rewrite lookup_insert_ne.
Qed.

(** X11: after any sequence of [ServerStats.RecordRequest] calls on
    fresh statistics, a path for which nothing was recorded has no
    statistics object, and the object of any other path is the one
    obtained by recording, in order, just the requests of that path on a
    new object of that path: recording for one path never touches the
    statistics of another. *)
Theorem ServerStats_per_path
    (t : Z) (reqs : list (string * Recorded)) (path : string) :
  ServerStats.Endpoints (record_requests reqs (new_stats t)) !! path
  = match recorded_for path reqs with
    | [] => None
    | rs => Some (record_all rs (EndpointStats.new path))
    end.
Proof.
  induction reqs as [|[p r] reqs IH] using rev_ind; [done|].
  rewrite record_requests_snoc, record_request_lookup, recorded_for_snoc.
  destruct (decide (p = path)) as [->|Hne].
  - rewrite IH.
    destruct (recorded_for path reqs) as [|r0 rs]; [done|].
    change ((r0 :: rs) ++ [r])%list with (r0 :: (rs ++ [r]))%list.
    cbn [default]. by rewrite app_comm_cons, record_all_snoc.
  - by rewrite app_nil_r.
Qed.

(** ** Timing fields of one endpoint *)

Lemma sum_list_snoc l d : sum_list (l ++ [d]) = sum_list l + d.
Proof.
  unfold sum_list. induction l as [|x l IH]; simpl; [lia|].
  rewrite IH. lia.
Qed.

Lemma elapsed_ms_snoc reqs r :
  elapsed_ms (reqs ++ [r])
  = (elapsed_ms reqs ++ [Milliseconds (rec_duration r)])%list.
Proof. unfold elapsed_ms. by rewrite fmap_app. Qed.

(** X12: after any sequence of [RecordRequest] calls on a new statistics
    object, the request count is the number of calls and the total time
    is the sum of the elapsed milliseconds, both wrapped to 64 bits; the
    greatest time is not negative, is at least every recorded elapsed
    time, and is zero or one of the recorded elapsed times. *)
Theorem EndpointStats_timing (path : string) (reqs : list Recorded) :
  let es := record_all reqs (EndpointStats.new path) in
  EndpointStats.RequestCount es = wrap64 (Z.of_nat (length reqs))
  ∧ EndpointStats.TotalTimeMs es = wrap64 (sum_list (elapsed_ms reqs))
  ∧ 0 ≤ EndpointStats.MaxTimeMs es
  ∧ (∀ d, d ∈ elapsed_ms reqs → d ≤ EndpointStats.MaxTimeMs es)
  ∧ (EndpointStats.MaxTimeMs es = 0
     ∨ EndpointStats.MaxTimeMs es ∈ elapsed_ms reqs).
Proof.
  induction reqs as [|r reqs IH] using rev_ind.
  - simpl. split_and!; try done.
    + intros d Hd. by apply elem_of_nil in Hd.
    + by left.
  - cbn zeta in *. rewrite record_all_snoc, length_app, elapsed_ms_snoc.
    set (es := record_all reqs (EndpointStats.new path)) in *.
    destruct IH as (Hn & Ht & H0 & Hmax & Hin).
    unfold record_one, EndpointStats.RecordRequest.
    cbn [EndpointStats.RequestCount EndpointStats.TotalTimeMs
         EndpointStats.MaxTimeMs length].
    set (d := Milliseconds (rec_duration r)).
    split_and!.
    + rewrite Hn, wrap64_add_l. f_equal. lia.
    + by rewrite Ht, wrap64_add_l, sum_list_snoc.
    + case_match; lia.
    + intros x [Hx|Hx%list_elem_of_singleton]%elem_of_app.
      * specialize (Hmax x Hx). case_match; lia.
      * subst x. case_match; lia.
    + destruct (EndpointStats.MaxTimeMs es <? d) eqn:Hlt.
      * right. apply elem_of_app. right. by apply list_elem_of_singleton.
      * destruct Hin as [Hz|Hin]; [by left|].
        right. apply elem_of_app. by left.
Qed.

Lemma record_one_timestamps es r :
  EndpointStats.FirstRequest (record_one es r)
  = Some (default (rec_now r) (EndpointStats.FirstRequest es))
  ∧ EndpointStats.LastRequest (record_one es r) = Some (rec_now r)
  ∧ EndpointStats.Path (record_one es r) = EndpointStats.Path es
  ∧ EndpointStats.ConditionalCount (record_one es r)
    = EndpointStats.ConditionalCount es.
Proof.
  unfold record_one, EndpointStats.RecordRequest. simpl.
  by destruct (EndpointStats.FirstRequest es).
Qed.

(** X13: after any sequence of [RecordRequest] calls on a new statistics
    object of a path, the first-request time is the clock reading of the
    first call and the last-request time that of the last call (both
    unset when there was no call), the path and the conditional counter
    are untouched, and when the clock readings never go back the first
    time is at most the last. *)
Theorem EndpointStats_timestamps (path : string) (reqs : list Recorded) :
  let es := record_all reqs (EndpointStats.new path) in
  EndpointStats.FirstRequest es = rec_now <$> head reqs
  ∧ EndpointStats.LastRequest es = rec_now <$> last reqs
  ∧ EndpointStats.Path es = path
  ∧ EndpointStats.ConditionalCount es = 0
  ∧ ((∀ i j ri rj, (i ≤ j)%nat → reqs !! i = Some ri → reqs !! j = Some rj →
        rec_now ri ≤ rec_now rj) →
     ∀ first_ last_,
       EndpointStats.FirstRequest es = Some first_ →
       EndpointStats.LastRequest es = Some last_ →
       first_ ≤ last_).
Proof.
  intros es.
  assert (EndpointStats.FirstRequest es = rec_now <$> head reqs
          ∧ EndpointStats.LastRequest es = rec_now <$> last reqs
          ∧ EndpointStats.Path es = path
          ∧ EndpointStats.ConditionalCount es = 0) as (Hf & Hl & Hp & Hc).
  { subst es. induction reqs as [|r reqs IH] using rev_ind; [done|].
    rewrite record_all_snoc.
    destruct (record_one_timestamps
                (record_all reqs (EndpointStats.new path)) r)
      as (G1 & G2 & G3 & G4).
    destruct IH as (I1 & I2 & I3 & I4).
    rewrite G1, G2, G3, G4, I1, I3, I4, last_snoc.
    split_and!; try done.
    by destruct reqs. }
  split_and!; try done.
  intros Hmono f l Hf' Hl'. rewrite Hf in Hf'. rewrite Hl in Hl'.
  rewrite head_lookup in Hf'. rewrite last_lookup in Hl'.
  destruct (reqs !! 0%nat) as [r0|] eqn:H0; [|done].
  destruct (reqs !! Nat.pred (length reqs)) as [rl|] eqn:Hlast; [|done].
  simpl in *. injection Hf' as <-. injection Hl' as <-.
  apply (Hmono 0%nat (Nat.pred (length reqs))); [lia|done..].
Qed.

(** ** Dispatch of configured endpoints *)

Section Dispatch.

Import server.

(** The kinds of endpoint that pass validation. *)
Lemma validateEndpointConfig_kinds e :
  validateEndpointConfig e = None →
  (Type_ e = "error" ∧ status_in_error_range (StatusCode e))
  ∨ Type_ e = "delay"
  ∨ (Type_ e = "conditional_error"
     ∧ 1 ≤ ErrorEveryN e ∧ status_in_error_range (StatusCode e))
  ∨ Type_ e = "static".
Proof.
  unfold validateEndpointConfig.
  destruct (String.eqb (Type_ e) "error") eqn:H1.
  { apply eqb_string_true in H1.
    destruct ((StatusCode e <? 400) || (StatusCode e >? 599)) eqn:Hc; [done|].
    apply status_range_test in Hc. auto. }
  destruct (String.eqb (Type_ e) "delay") eqn:H2.
  { apply eqb_string_true in H2. auto. }
  destruct (String.eqb (Type_ e) "conditional_error") eqn:H3.
  { apply eqb_string_true in H3.
    destruct (ErrorEveryN e <? 1) eqn:Hn; [done|].
    destruct ((StatusCode e <? 400) || (StatusCode e >? 599)) eqn:Hc; [done|].
    apply status_range_test in Hc. intros _. right; right; left.
    split_and!; [done|lia|done]. }
  destruct (String.eqb (Type_ e) "static") eqn:H4; [|done].
  apply eqb_string_true in H4. auto.
Qed.

Lemma GetEndpointStats_idem p ss :
  ServerStats.GetEndpointStats p (ServerStats.GetEndpointStats p ss)
  = ServerStats.GetEndpointStats p ss.
Proof.
  unfold ServerStats.GetEndpointStats.
  destruct (ServerStats.Endpoints ss !! p) eqn:Hp; [by rewrite Hp|].
  simpl. by rewrite lookup_insert_eq.
Qed.

Lemma RecordRequest_after_GetEndpointStats p t d st ss :
  ServerStats.RecordRequest p t d st (ServerStats.GetEndpointStats p ss)
  = ServerStats.RecordRequest p t d st ss.
Proof.
  unfold ServerStats.RecordRequest, ServerStats.GetEndpointStats.
  destruct (ServerStats.Endpoints ss !! p) eqn:Hp; simpl.
  - by rewrite Hp.
  - by rewrite lookup_insert_eq, Hp.
Qed.

(** Whatever the endpoint, the handler leaves the manager and the
    request log alone. *)
Lemma handleDynamicEndpoint_frame clk r e s :
  manager_of (handleDynamicEndpoint clk r e s).1 = manager_of s
  ∧ requestLog (handleDynamicEndpoint clk r e s).1 = requestLog s
  ∧ maxLogSize (handleDynamicEndpoint clk r e s).1 = maxLogSize s.
Proof.
  unfold handleDynamicEndpoint. repeat case_match; simplify_eq; done.
Qed.

(** X14: for an endpoint that passed validation the dynamic handler
    always answers (it does not panic) and touches neither the manager
    nor the request log. An [error] endpoint answers its status code
    with [{"error": message}], a [delay] endpoint 200 with its response
    object, and a [static] endpoint, although valid, 500 with
    [{"error": "Unknown endpoint type"}]; in these three cases exactly
    one request with the status written is recorded under the URL path.
    A [conditional_error] endpoint answers its status code or 200. *)
Theorem handleDynamicEndpoint_valid
    (clk : Clock) (r : Request) (e : EndpointConfig) (s : Server) :
  validateEndpointConfig e = None →
  ∃ s' resp,
    handleDynamicEndpoint clk r e s = (s', Some resp)
    ∧ manager_of s' = manager_of s
    ∧ requestLog s' = requestLog s
    ∧ (Type_ e = "error" →
       resp = {| status := StatusCode e; body := error_body (Message e) |}
       ∧ stats s' = ServerStats.RecordRequest (URLPath r) (now clk) (since clk)
                                              (StatusCode e) (stats s))
    ∧ (Type_ e = "delay" →
       resp = {| status := 200;
                 body := JSONObject (deref (heap_of s) (Response e)) |}
       ∧ stats s' = ServerStats.RecordRequest (URLPath r) (now clk) (since clk)
                                              200 (stats s))
    ∧ (Type_ e = "static" →
       resp = {| status := 500; body := error_body "Unknown endpoint type" |}
       ∧ stats s' = ServerStats.RecordRequest (URLPath r) (now clk) (since clk)
                                              500 (stats s))
    ∧ (Type_ e = "conditional_error" →
       status resp = StatusCode e ∨ status resp = 200).
Proof.
  intros Hv.
  pose proof (handleDynamicEndpoint_frame clk r e s) as (Hm & Hl & _).
  destruct (validateEndpointConfig_kinds e Hv)
    as [[Hty Hsc]|[Hty|[(Hty & Hn & Hsc)|Hty]]].
  - revert Hm Hl. unfold handleDynamicEndpoint. rewrite Hty.
    cbn [String.eqb Ascii.eqb Bool.eqb].
    rewrite (valid_header_code_error_range _ Hsc). intros Hm Hl.
    eexists _, _. split; [done|]. split_and!; try done.
    intros _. split; [done|]. unfold record. cbn [set_stats stats].
    apply RecordRequest_after_GetEndpointStats.
  - revert Hm Hl. unfold handleDynamicEndpoint. rewrite Hty.
    cbn [String.eqb Ascii.eqb Bool.eqb].
    change (valid_header_code 200) with true. intros Hm Hl.
    eexists _, _. split; [done|]. split_and!; try done.
    intros _. split; [done|]. unfold record. cbn [set_stats stats].
    apply RecordRequest_after_GetEndpointStats.
  - revert Hm Hl. unfold handleDynamicEndpoint. rewrite Hty.
    cbn [String.eqb Ascii.eqb Bool.eqb].
    unfold go_rem. destruct (ErrorEveryN e =? 0) eqn:Hz; [lia|].
    destruct (Z.rem _ _ =? 0).
    + rewrite (valid_header_code_error_range _ Hsc). intros Hm Hl.
      eexists _, _. split; [done|]. split_and!; try done. intros _. by left.
    + change (valid_header_code 200) with true. intros Hm Hl.
      eexists _, _. split; [done|]. split_and!; try done. intros _. by right.
  - revert Hm Hl. unfold handleDynamicEndpoint. rewrite Hty.
    cbn [String.eqb Ascii.eqb Bool.eqb].
    change (valid_header_code 500) with true. intros Hm Hl.
    eexists _, _. split; [done|]. split_and!; try done.
    intros _. split; [done|]. unfold record. cbn [set_stats stats].
    apply RecordRequest_after_GetEndpointStats.
Qed.

Lemma handleDynamicEndpoint_valid_witness :
  ∃ s' resp,
    handleDynamicEndpoint sample_clock (request "GET" "/api/test")
                          sample_error_endpoint default_server
    = (s', Some resp)
    ∧ manager_of s' = manager_of default_server
    ∧ requestLog s' = requestLog default_server
    ∧ (Type_ sample_error_endpoint = "error" →
       resp = {| status := StatusCode sample_error_endpoint;
                 body := error_body (Message sample_error_endpoint) |}
       ∧ stats s'
         = ServerStats.RecordRequest
             (URLPath (request "GET" "/api/test")) (now sample_clock)
             (since sample_clock) (StatusCode sample_error_endpoint)
             (stats default_server))
    ∧ (Type_ sample_error_endpoint = "delay" →
       resp = {| status := 200;
                 body := JSONObject (deref (heap_of default_server)
                                           (Response sample_error_endpoint)) |}
       ∧ stats s'
         = ServerStats.RecordRequest
             (URLPath (request "GET" "/api/test")) (now sample_clock)
             (since sample_clock) 200 (stats default_server))
    ∧ (Type_ sample_error_endpoint = "static" →
       resp = {| status := 500; body := error_body "Unknown endpoint type" |}
       ∧ stats s'
         = ServerStats.RecordRequest
             (URLPath (request "GET" "/api/test")) (now sample_clock)
             (since sample_clock) 500 (stats default_server))
    ∧ (Type_ sample_error_endpoint = "conditional_error" →
       status resp = StatusCode sample_error_endpoint ∨ status resp = 200).
Proof.
  apply (handleDynamicEndpoint_valid sample_clock (request "GET" "/api/test")
           sample_error_endpoint default_server).
  reflexivity.
Defined.

End Dispatch.

(** ** Requests through the routes and the middleware *)

Section Routes.

Import server.

(** The cases in which the mux answers by itself leave the server as it
    is; what remains is the choice of the handler. *)
Ltac mux_cases r :=
  unfold route; cbv zeta;
  destruct (String.eqb (Target r) "*"); [by simpl|];
  destruct (String.eqb _ ""); [by simpl|];
  destruct (negb (String.eqb _ (EscapedPath r))); [by simpl|].

Lemma handleStaticFile_frame env clk r dir s :
  manager_of (handleStaticFile env clk r dir s).1 = manager_of s
  ∧ requestLog (handleStaticFile env clk r dir s).1 = requestLog s
  ∧ maxLogSize (handleStaticFile env clk r dir s).1 = maxLogSize s
  ∧ ∃ st, stats (handleStaticFile env clk r dir s).1
          = ServerStats.RecordRequest (URLPath r) (now clk) (since clk) st
                                      (stats s).
Proof.
  unfold handleStaticFile. repeat case_match; simpl; split_and!; eauto.
Qed.

Lemma handleRequest_frame env clk r s :
  manager_of (handleRequest env clk r s).1 = manager_of s
  ∧ requestLog (handleRequest env clk r s).1 = requestLog s
  ∧ maxLogSize (handleRequest env clk r s).1 = maxLogSize s.
Proof.
  unfold handleRequest. destruct (GetConfig (manager_of s)) as [cfg|]; [|done].
  destruct (Endpoints cfg ≫= _) as [e|].
  - apply handleDynamicEndpoint_frame.
  - pose proof (handleStaticFile_frame env clk r (Server_StaticDir cfg) s)
      as (H1 & H2 & H3 & _).
    by destruct (handleStaticFile env clk r (Server_StaticDir cfg) s).
Qed.

Lemma handleConfig_log clk r s :
  requestLog (handleConfig clk r s).1 = requestLog s
  ∧ maxLogSize (handleConfig clk r s).1 = maxLogSize s.
Proof.
  unfold handleConfig, handleUpdateConfig, handleAddEndpoint,
    handleRemoveEndpoint.
  repeat case_match; simplify_eq; done.
Qed.

(** No handler touches the request log; only the middleware does. *)
Lemma route_log env clk r s :
  requestLog (route env clk r s).1 = requestLog s
  ∧ maxLogSize (route env clk r s).1 = maxLogSize s.
Proof.
  mux_cases r.
  destruct (String.eqb (URLPath r) "/config").
  { pose proof (handleConfig_log clk r s).
    by destruct (handleConfig clk r s). }
  destruct (String.eqb (URLPath r) "/ws"); [done|].
  destruct (String.eqb (URLPath r) "/stats"); [done|].
  destruct (String.eqb (URLPath r) "/requestlog").
  { unfold handleRequestLog. by destruct (negb _). }
  pose proof (handleRequest_frame env clk r s) as (_ & ? & ?). done.
Qed.

Lemma conditional_count_on_endpoint_other p q f ss :
  q ≠ p →
  conditional_count p (ServerStats.on_endpoint q f ss)
  = conditional_count p ss.
Proof.
  intros Hne. unfold conditional_count, ServerStats.on_endpoint. simpl.
  by rewrite lookup_alter_ne.
Qed.

Lemma handleDynamicEndpoint_counter clk r e s p :
  Type_ e ≠ "conditional_error" ∨ URLPath r ≠ p →
  conditional_count p (stats (handleDynamicEndpoint clk r e s).1)
  = conditional_count p (stats s).
Proof.
  intros Hcase. unfold handleDynamicEndpoint.
  destruct (String.eqb (Type_ e) "error");
    [|destruct (String.eqb (Type_ e) "delay");
      [|destruct (String.eqb (Type_ e) "conditional_error") eqn:Hce]].
  - case_match; simpl;
      rewrite ?conditional_count_RecordRequest;
      apply conditional_count_GetEndpointStats.
  - case_match; simpl;
      rewrite ?conditional_count_RecordRequest;
      apply conditional_count_GetEndpointStats.
  - apply eqb_string_true in Hce. destruct Hcase as [?|Hp]; [done|].
    repeat case_match; simplify_eq; simpl;
      rewrite ?conditional_count_RecordRequest;
      rewrite conditional_count_on_endpoint_other by done;
      apply conditional_count_GetEndpointStats.
  - case_match; simpl;
      rewrite ?conditional_count_RecordRequest;
      apply conditional_count_GetEndpointStats.
Qed.

(** X15: whatever the request, the conditional counter of a path changes
    only when the request is for that very path and the live table has a
    [conditional_error] endpoint there; requests for other paths, for
    endpoints of other kinds, for static files and for the control plane
    leave it as it is. *)
Theorem conditional_count_changes_only_by_dispatch
    (env : Env) (clk : Clock) (r : Request) (s : Server) (p : string) :
  conditional_count p (stats (route env clk r s).1)
  ≠ conditional_count p (stats s) →
  URLPath r = p
  ∧ ∃ e, live_endpoint (manager_of s) p = Some e
         ∧ Type_ e = "conditional_error".
Proof.
  mux_cases r.
  destruct (String.eqb (URLPath r) "/config").
  { pose proof (handleConfig_stats clk r s) as Hs.
    destruct (handleConfig clk r s) as [s' resp]. simpl in *.
    rewrite Hs, conditional_count_RecordRequest. done. }
  destruct (String.eqb (URLPath r) "/ws"); [done|].
  destruct (String.eqb (URLPath r) "/stats").
  { simpl. rewrite conditional_count_RecordRequest. done. }
  destruct (String.eqb (URLPath r) "/requestlog").
  { unfold handleRequestLog. by destruct (negb _). }
  unfold handleRequest.
  destruct (GetConfig (manager_of s)) as [cfg|] eqn:Hcfg.
  2: { simpl. rewrite conditional_count_RecordRequest. done. }
  pose proof (GetConfig_same_references (manager_of s) cfg (URLPath r) Hcfg)
    as Href.
  destruct (Endpoints cfg) as [table|] eqn:Ht; simpl.
  - destruct (table !! URLPath r) as [e|] eqn:He.
    + intros Hchg.
      destruct (decide (URLPath r = p)) as [Hp|Hp].
      * destruct (decide (Type_ e = "conditional_error")) as [Hty|Hty].
        -- subst p. eauto.
        -- by rewrite handleDynamicEndpoint_counter in Hchg by auto.
      * by rewrite handleDynamicEndpoint_counter in Hchg by auto.
    + pose proof (handleStaticFile_frame env clk r (Server_StaticDir cfg) s)
        as (_ & _ & _ & st & Hst).
      destruct (handleStaticFile env clk r (Server_StaticDir cfg) s).
      simpl in *. rewrite Hst, conditional_count_RecordRequest. done.
  - pose proof (handleStaticFile_frame env clk r (Server_StaticDir cfg) s)
      as (_ & _ & _ & st & Hst).
    destruct (handleStaticFile env clk r (Server_StaticDir cfg) s).
    simpl in *. rewrite Hst, conditional_count_RecordRequest. done.
Qed.

Lemma conditional_count_changes_only_by_dispatch_witness :
  URLPath (request "GET" "/api/flaky") = "/api/flaky"
  ∧ ∃ e, live_endpoint (manager_of default_server) "/api/flaky" = Some e
         ∧ Type_ e = "conditional_error".
Proof.
  apply (conditional_count_changes_only_by_dispatch sample_env sample_clock
           (request "GET" "/api/flaky") default_server "/api/flaky").
  vm_compute. discriminate.
Defined.

Lemma ServeHTTP_log env outer clk r s :
  maxLogSize (ServeHTTP env outer clk r s).1 = maxLogSize s
  ∧ (0 ≤ maxLogSize s →
     requestLog (ServeHTTP env outer clk r s).1
     = match (ServeHTTP env outer clk r s).2 with
       | Some resp =>
           take (Z.to_nat (maxLogSize s))
                (log_entry outer r resp :: requestLog s)
       | None => requestLog s
       end).
Proof.
  unfold ServeHTTP. pose proof (route_log env clk r s) as [Hl Hm].
  destruct (route env clk r s) as [s' [resp|]]; simpl in *; [|done].
  rewrite addToRequestLog_maxLogSize. split; [done|]. intros Hk.
  rewrite addToRequestLog_take by lia. by rewrite Hl, Hm.
Qed.

Lemma take_app_take {A} k (a b : list A) :
  take k (a ++ take k b) = take k (a ++ b).
Proof.
  destruct (decide (length a < k)%nat) as [Hlt|Hge].
  - rewrite !take_app_ge by lia. f_equal. rewrite take_take. f_equal. lia.
  - by rewrite !take_app_le by lia.
Qed.

Lemma serve_http_all_log env reqs : ∀ s,
  0 ≤ maxLogSize s →
  (length (requestLog s) ≤ Z.to_nat (maxLogSize s))%nat →
  maxLogSize (serve_http_all env reqs s).1 = maxLogSize s
  ∧ length (serve_http_all env reqs s).2 = length reqs
  ∧ requestLog (serve_http_all env reqs s).1
    = take (Z.to_nat (maxLogSize s))
           (rev (logged reqs (serve_http_all env reqs s).2) ++ requestLog s).
Proof.
  induction reqs as [|[[outer clk] r] reqs IH]; intros s Hk Hlen.
  - simpl. split_and!; try done. by rewrite take_ge by lia.
  - cbn [serve_http_all].
    pose proof (ServeHTTP_log env outer clk r s) as [Hm Hl].
    specialize (Hl Hk).
    destruct (ServeHTTP env outer clk r s) as [s1 resp] eqn:Hserve.
    cbn [fst snd] in *.
    destruct (IH s1) as (I1 & I2 & I3).
    { by rewrite Hm. }
    { rewrite Hm, Hl. destruct resp; [rewrite length_take|]; lia. }
    destruct (serve_http_all env reqs s1) as [s2 resps]. cbn [fst snd] in *.
    rewrite I1, I3, Hm, Hl. split_and!; [done|by (cbn [length]; rewrite I2)|].
    destruct resp as [resp|]; cbn [logged rev]; [|done].
    rewrite take_app_take. by rewrite <- app_assoc.
Qed.

(** X16: a server whose request log has capacity 1000 and is within it
    serves any sequence of requests through the middleware. Afterwards
    the capacity is unchanged, there is one result per request, and the
    log consists of one entry per answered request (time of arrival,
    method, full request URI, the status written, remote address), the
    latest first, followed by the earlier entries, cut after the first
    1000. *)
Theorem middleware_logs_every_answer
    (env : Env) (reqs : list (Clock * Clock * Request)) (s : Server) :
  maxLogSize s = 1000 →
  (length (requestLog s) ≤ 1000)%nat →
  maxLogSize (serve_http_all env reqs s).1 = 1000
  ∧ length (serve_http_all env reqs s).2 = length reqs
  ∧ requestLog (serve_http_all env reqs s).1
    = take 1000 (rev (logged reqs (serve_http_all env reqs s).2)
                 ++ requestLog s)
  ∧ (length (requestLog (serve_http_all env reqs s).1) ≤ 1000)%nat.
Proof.
  intros Hmax Hlen.
  destruct (serve_http_all_log env reqs s) as (H1 & H2 & H3); [lia..|].
  rewrite Hmax in H1, H3. change (Z.to_nat 1000) with 1000%nat in H3.
  split_and!; try done. rewrite H3, length_take. lia.
Qed.

Lemma middleware_logs_every_answer_witness :
  let reqs := [(sample_clock, sample_clock, request "GET" "/api/error");
               (sample_clock, sample_clock, put_invalid_config)] in
  maxLogSize (serve_http_all sample_env reqs default_server).1 = 1000
  ∧ length (serve_http_all sample_env reqs default_server).2 = length reqs
  ∧ requestLog (serve_http_all sample_env reqs default_server).1
    = take 1000
           (rev (logged reqs (serve_http_all sample_env reqs default_server).2)
            ++ requestLog default_server)
  ∧ (length (requestLog (serve_http_all sample_env reqs default_server).1)
     ≤ 1000)%nat.
Proof.
  intros reqs.
  apply (middleware_logs_every_answer sample_env reqs default_server).
  - reflexivity.
  - simpl. lia.
Defined.

Lemma handleConfig_valid_live clk r s :
  valid_live (manager_of s) → valid_live (manager_of (handleConfig clk r s).1).
Proof.
  intros Hv. unfold handleConfig.
  destruct (String.eqb (Method r) "GET"); [done|].
  destruct (String.eqb (Method r) "PUT").
  { unfold handleUpdateConfig. destruct (BodyAsConfig r) as [nc|]; [|done].
    pose proof (UpdateConfig_valid_live nc (manager_of s) Hv) as Hu.
    unfold manager_of in *.
    by destruct (UpdateConfig nc (config s)) as [m [err|]]. }
  destruct (String.eqb (Method r) "POST").
  { unfold handleAddEndpoint.
    destruct (BodyAsEndpoint r) as [[path e]|]; [|done].
    destruct (String.eqb path "") eqn:Hp; [done|].
    apply eqb_string_false in Hp.
    pose proof (UpdateEndpoint_valid_live path e (manager_of s) Hp Hv) as Hu.
    unfold manager_of in *.
    by destruct (UpdateEndpoint path e (config s)) as [m [err|]]. }
  destruct (String.eqb (Method r) "DELETE"); [|done].
  unfold handleRemoveEndpoint.
  destruct (String.eqb (QueryPath r) ""); [done|].
  pose proof (RemoveEndpoint_valid_live (QueryPath r) (manager_of s) Hv) as Hu.
  unfold manager_of in *.
  by destruct (RemoveEndpoint (QueryPath r) (config s)) as [m [err|]].
Qed.

Lemma ServeHTTP_valid_live env outer clk r s :
  valid_live (manager_of s) →
  valid_live (manager_of (ServeHTTP env outer clk r s).1).
Proof.
  intros Hv.
  assert (valid_live (manager_of (route env clk r s).1)) as Hr.
  { mux_cases r.
    destruct (String.eqb (URLPath r) "/config").
    { pose proof (handleConfig_valid_live clk r s Hv).
      by destruct (handleConfig clk r s). }
    destruct (String.eqb (URLPath r) "/ws"); [done|].
    destruct (String.eqb (URLPath r) "/stats"); [done|].
    destruct (String.eqb (URLPath r) "/requestlog").
    { unfold handleRequestLog. by destruct (negb _). }
    pose proof (handleRequest_frame env clk r s) as (Hm & _). by rewrite Hm. }
  unfold ServeHTTP. destruct (route env clk r s) as [s' [resp|]]; [|done].
  simpl in *. unfold addToRequestLog. by case_match.
Qed.

(** X18: if the live configuration passes [validateConfig], it still
    does after any sequence of requests served through the middleware,
    whatever they are and however they are answered: the control plane
    never installs a configuration that would fail validation. *)
Theorem server_keeps_valid_configuration
    (env : Env) (reqs : list (Clock * Clock * Request)) (s : Server) :
  valid_live (manager_of s) →
  valid_live (manager_of (serve_http_all env reqs s).1).
Proof.
  revert s. induction reqs as [|[[outer clk] r] reqs IH]; intros s Hv; [done|].
  cbn [serve_http_all].
  pose proof (ServeHTTP_valid_live env outer clk r s Hv) as H1.
  destruct (ServeHTTP env outer clk r s) as [s1 resp]. simpl in H1.
  specialize (IH s1 H1).
  by destruct (serve_http_all env reqs s1) as [s2 resps].
Qed.

Lemma server_keeps_valid_configuration_witness :
  valid_live
    (manager_of
       (serve_http_all sample_env
          [(sample_clock, sample_clock, put_invalid_config);
           (sample_clock, sample_clock, request "GET" "/api/error")]
          default_server).1).
Proof.
  apply (server_keeps_valid_configuration sample_env
           [(sample_clock, sample_clock, put_invalid_config);
            (sample_clock, sample_clock, request "GET" "/api/error")]
           default_server).
  intros c [= <-]. by vm_compute.
Defined.

End Routes.

(** ** The control plane *)

Section ControlPlaneOutcome.

Import server.

(** X17: [/config] changes the manager only through [PUT], [POST] and
    [DELETE]: [GET] answers with the snapshot (or 500 when nothing is
    loaded) and any other method with 405. A [PUT] is answered 200 or
    400; on 400 the live configuration is what it was, and on 200 the
    body was a configuration that passes validation and is now the live
    one. A [PUT] whose body cannot be decoded or fails validation
    changes nothing at all, the file included. A [POST] without a
    decodable body or with an empty path, and a [DELETE] without a
    [path] parameter, are answered 400 and change nothing. *)
Theorem handleConfig_outcome (clk : Clock) (r : Request) (s : Server) :
  (Method r ≠ "PUT" → Method r ≠ "POST" → Method r ≠ "DELETE" →
   manager_of (handleConfig clk r s).1 = manager_of s
   ∧ (handleConfig clk r s).2
     = if String.eqb (Method r) "GET" then handleGetConfig s
       else http_Error "Method not allowed" 405)
  ∧ (Method r = "PUT" →
     (status (handleConfig clk r s).2 = 200
      ∨ status (handleConfig clk r s).2 = 400)
     ∧ (status (handleConfig clk r s).2 = 400 →
        live_config (handleConfig clk r s).1 = live_config s
        ∧ heap_of (handleConfig clk r s).1 = heap_of s)
     ∧ ((∀ newConfig, BodyAsConfig r = Some newConfig →
                      validateConfig newConfig ≠ None) →
        status (handleConfig clk r s).2 = 400
        ∧ manager_of (handleConfig clk r s).1 = manager_of s)
     ∧ (status (handleConfig clk r s).2 = 200 →
        ∃ newConfig,
          BodyAsConfig r = Some newConfig
          ∧ validateConfig newConfig = None
          ∧ live_config (handleConfig clk r s).1 = Some newConfig))
  ∧ (Method r = "POST" →
     BodyAsEndpoint r = None ∨ (∃ e, BodyAsEndpoint r = Some ("", e)) →
     status (handleConfig clk r s).2 = 400
     ∧ manager_of (handleConfig clk r s).1 = manager_of s)
  ∧ (Method r = "DELETE" → QueryPath r = "" →
     status (handleConfig clk r s).2 = 400
     ∧ manager_of (handleConfig clk r s).1 = manager_of s).
Proof.
  split_and!.
  - intros H1 H2 H3. unfold handleConfig.
    apply eqb_string_false in H1, H2, H3.
    destruct (String.eqb (Method r) "GET"); [done|].
    by rewrite H1, H2, H3.
  - intros Hput. unfold handleConfig, handleUpdateConfig. rewrite Hput.
    cbn [String.eqb Ascii.eqb Bool.eqb].
    destruct (BodyAsConfig r) as [nc|]; [|simpl; split_and!; auto; done].
    pose proof (UpdateConfig_error_config nc (manager_of s)) as Herr.
    pose proof (UpdateConfig_success nc (manager_of s)) as Hok.
    pose proof (UpdateConfig_invalid nc (manager_of s)) as Hinv.
    unfold manager_of, live_config, heap_of in *.
    destruct (UpdateConfig nc (config s)) as [m [err|]]; simpl in *.
    + destruct Herr as (Hc & Hh & _); [eauto|].
      split_and!; [auto|done| |done].
      intros Hbad. split; [done|]. apply Hinv. by apply Hbad.
    + destruct Hok as (Hv & Hc); [done|].
      split_and!; [auto|done| |].
      * intros Hbad. by destruct (Hbad nc).
      * intros _. by exists nc.
  - intros Hpost Hbody. unfold handleConfig, handleAddEndpoint. rewrite Hpost.
    cbn [String.eqb Ascii.eqb Bool.eqb].
    destruct Hbody as [->|[e ->]]; done.
  - intros Hdel Hq. unfold handleConfig, handleRemoveEndpoint.
    rewrite Hdel, Hq. done.
Qed.

End ControlPlaneOutcome.

(** ** The file watcher *)

Lemma handle_event_triggers event lastReload m :
  Watcher.handle_event event lastReload m
  = if triggers event lastReload m
    then (Some (Watcher.clock_after event),
          (LoadConfig (Watcher.found event) m).1)
    else (lastReload, m).
Proof.
  unfold Watcher.handle_event, triggers, Watcher.reloadConfig.
  destruct (String.eqb _ _); simpl; [|done].
  destruct (_ <? _); simpl; [done|].
  destruct (Watcher.has _ Watcher.Write); simpl; [done|].
  by destruct (Watcher.has _ Watcher.Create).
Qed.

Lemma watch_all_ignored received lastReload m :
  all_ignored received lastReload m →
  Watcher.watch_from received lastReload m = (lastReload, m).
Proof.
  unfold all_ignored.
  induction received as [|item received IH]; intros Hall; [done|].
  apply Forall_cons in Hall as [Hitem Hall]. specialize (IH Hall).
  destruct item as [| | | |event]; simpl; try done.
  by rewrite handle_event_triggers, Hitem.
Qed.

(** X19: the watch loop reloads for an event exactly when the event
    names the configuration file (same base name), at least 500 ms have
    passed since the last reload, and the event carries the write or the
    create bit. While nothing received is of that kind (events for other
    files, events inside the debounce interval, remove, rename and chmod
    events, watcher errors) the manager and the time of the last reload
    stay as they are; an event of that kind makes the manager what
    [LoadConfig] leaves and sets the time of the last reload, whether
    the reload succeeded or not. *)
Theorem watch_reloads_exactly_on_trigger
    (received : list Watcher.Received) (lastReload : option Z)
    (m : Manager) :
  (all_ignored received lastReload m →
   Watcher.watch_from received lastReload m = (lastReload, m))
  ∧ (∀ event rest,
       triggers event lastReload m = true →
       Watcher.watch_from (Watcher.GotEvent event :: rest) lastReload m
       = Watcher.watch_from rest (Some (Watcher.clock_after event))
                            (LoadConfig (Watcher.found event) m).1)
  ∧ (∀ event,
       triggers event lastReload m = true
       ↔ filepath_Base (Watcher.Name event) = filepath_Base (configPath m)
         ∧ Watcher.debounceInterval
           ≤ Watcher.Since lastReload (Watcher.clock_at event)
         ∧ (Z.land (Watcher.Op event) 2 = 2
            ∨ Z.land (Watcher.Op event) 1 = 1)).
Proof.
  split_and!.
  - apply watch_all_ignored.
  - intros event rest Ht. simpl. by rewrite handle_event_triggers, Ht.
  - intros event. unfold triggers, Watcher.has, Watcher.Write, Watcher.Create.
    rewrite !andb_true_iff, orb_true_iff, negb_true_iff, eqb_string_true.
    rewrite Z.ltb_ge, !Z.eqb_eq. tauto.
Qed.

Lemma watch_valid_live received : ∀ lastReload m,
  valid_live m → valid_live (Watcher.watch_from received lastReload m).2.
Proof.
  induction received as [|item received IH]; intros lastReload m Hv; [done|].
  destruct item as [| | | |event]; simpl; try done; [by apply IH|].
  rewrite handle_event_triggers.
  destruct (triggers event lastReload m); apply IH; [|done].
  by apply LoadConfig_valid_live.
Qed.

(** X20: hot reloading never installs a configuration that fails
    validation: if the live configuration passes [validateConfig] when
    the watch loop starts, it does whenever the loop ends, whatever
    events arrive and whatever the file holds when they do. *)
Theorem watch_keeps_valid_configuration
    (received : list Watcher.Received) (m : Manager) :
  valid_live m → valid_live (Watcher.watch received m).2.
Proof. intros Hv. by apply watch_valid_live. Qed.

Lemma watch_keeps_valid_configuration_witness :
  valid_live
    (Watcher.watch
       [Watcher.GotEvent
          (write_event "configs/default.json" 1000 2000 ParseFailed);
        Watcher.GotEvent
          (write_event "configs/default.json" 900000000 900000001
                       FileMissing)]
       default_manager).2.
Proof.
  apply (watch_keeps_valid_configuration _ default_manager).
  intros c [= <-]. by vm_compute.
Defined.

Lemma reload_count_quiet t0 received : ∀ t m,
  t0 ≤ t → within_window t0 received →
  reload_count received (Some t) m = 0%nat.
Proof.
  unfold within_window.
  induction received as [|item received IH]; intros t m Ht Hall; [done|].
  apply Forall_cons in Hall as [Hitem Hall].
  destruct item as [| | | |event]; simpl; try done; [by apply IH|].
  assert (triggers event (Some t) m = false) as Hno.
  { unfold triggers. destruct Hitem as (H1 & H2 & H3).
    replace (Watcher.Since (Some t) (Watcher.clock_at event)
             <? Watcher.debounceInterval) with true.
    - by rewrite andb_false_r.
    - symmetry. apply Z.ltb_lt. unfold Watcher.Since. lia. }
  rewrite handle_event_triggers, Hno. by apply IH.
Qed.

(** X21: the loop reloads at most once in any 500 ms: if every event
    received has its debounce test within the 500 ms that start at some
    instant, and the clock does not go back between that test and the
    end of the reload, then [reloadConfig] is called at most once. *)
Theorem watch_reloads_once_per_interval
    (t0 : Z) (received : list Watcher.Received)
    (lastReload : option Z) (m : Manager) :
  within_window t0 received →
  (reload_count received lastReload m ≤ 1)%nat.
Proof.
  revert lastReload m.
  induction received as [|item received IH]; intros lastReload m Hall;
    [simpl; lia|].
  pose proof Hall as Hall'. unfold within_window in Hall'.
  apply Forall_cons in Hall' as [Hitem Hrest].
  destruct item as [| | | |event]; simpl; try lia; [by apply IH|].
  rewrite handle_event_triggers.
  destruct (triggers event lastReload m).
  - rewrite (reload_count_quiet t0); [lia| |done].
    destruct Hitem as (H1 & H2 & _). lia.
  - simpl. by apply IH.
Qed.

Lemma watch_reloads_once_per_interval_witness :
  (reload_count
     [Watcher.GotEvent
        (write_event "configs/default.json" 1000 100001000 ParseFailed);
      Watcher.GotEvent
        (write_event "configs/default.json" 100002000 200002000 FileMissing)]
     None default_manager ≤ 1)%nat.
Proof.
  apply (watch_reloads_once_per_interval 1000).
  repeat constructor; vm_compute; congruence.
Defined.

(** ** Starting and stopping *)

(** X22: a watcher that has been stopped once cannot be stopped a second
    time. [Stop] closes the stop channel, which is made only once, and
    [Start] does not make a new one: after a [Stop] that found the
    watcher running and a [Start] that succeeded, the watcher runs again
    and the next [Stop] panics. [Start] on a running watcher and [Stop]
    on a stopped one do nothing. *)
Theorem Watcher_second_Stop_panics (w w1 w2 : Watcher.t) :
  Watcher.isRunning w = true →
  Watcher.Stop w = Some w1 →
  Watcher.Start true true w1 = (w2, None) →
  Watcher.isRunning w1 = false
  ∧ Watcher.isRunning w2 = true
  ∧ Watcher.Stop w2 = None
  ∧ Watcher.Stop w1 = Some w1
  ∧ Watcher.Start true true w2 = (w2, None).
Proof.
  unfold Watcher.Stop, Watcher.Start. intros Hrun. rewrite Hrun. simpl.
  destruct (Watcher.stopClosed w); [done|].
  intros [= <-]. simpl. intros [= <-]. done.
Qed.

Lemma Watcher_second_Stop_panics_witness :
  let w := (Watcher.Start true true Watcher.NewWatcher).1 in
  let w1 := {| Watcher.isRunning := false; Watcher.stopClosed := true |} in
  let w2 := {| Watcher.isRunning := true; Watcher.stopClosed := true |} in
  Watcher.isRunning w1 = false
  ∧ Watcher.isRunning w2 = true
  ∧ Watcher.Stop w2 = None
  ∧ Watcher.Stop w1 = Some w1
  ∧ Watcher.Start true true w2 = (w2, None).
Proof.
  intros w w1 w2.
  apply (Watcher_second_Stop_panics w w1 w2); reflexivity.
Defined.

(** X23: a server with a loaded configuration is started, stopped,
    started again and stopped again. While it runs a further [Start] is
    refused with an error and changes nothing; the first [Stop] succeeds
    and a further [Stop] then does nothing; the second [Start] succeeds;
    the second [Stop] panics inside the watcher, whether or not the
    shutdown of the listener would succeed. *)
Theorem server_restart_then_Stop_panics
    (m : Manager) (l l1 l2 l3 : lifecycle.t) (new_ok add_ok b : bool) :
  lifecycle.isRunning l = false →
  Watcher.isRunning (lifecycle.configWatcher l) = false →
  Watcher.stopClosed (lifecycle.configWatcher l) = false →
  lifecycle.Start true true m l = (l1, None) →
  lifecycle.Stop true l1 = Some (l2, None) →
  lifecycle.Start true true m l2 = (l3, None) →
  lifecycle.Start new_ok add_ok m l1 = (l1, Some lifecycle.AlreadyRunning)
  ∧ lifecycle.isRunning l2 = false
  ∧ lifecycle.Stop b l2 = Some (l2, None)
  ∧ lifecycle.isRunning l3 = true
  ∧ lifecycle.Stop b l3 = None.
Proof.
  intros Hrun Hw Hc.
  unfold lifecycle.Start at 1. rewrite Hrun.
  destruct (GetConfig m) as [cfg|] eqn:Hcfg; [|done].
  unfold Watcher.Start. rewrite Hw. simpl. intros [= <-].
  unfold lifecycle.Stop at 1. simpl. unfold Watcher.Stop. simpl. rewrite Hc.
  intros [= <-].
  unfold lifecycle.Start at 1. simpl. rewrite Hcfg.
  unfold Watcher.Start. simpl. intros [= <-].
  split_and!; done.
Qed.

Lemma server_restart_then_Stop_panics_witness :
  let l1 := (lifecycle.Start true true default_manager lifecycle.new).1 in
  let l2 := {| lifecycle.isRunning := false;
               lifecycle.configWatcher :=
                 {| Watcher.isRunning := false; Watcher.stopClosed := true |};
               lifecycle.httpServer := true;
               lifecycle.wsConnections := 0 |} in
  let l3 := (lifecycle.Start true true default_manager l2).1 in
  lifecycle.Start true false default_manager l1
  = (l1, Some lifecycle.AlreadyRunning)
  ∧ lifecycle.isRunning l2 = false
  ∧ lifecycle.Stop false l2 = Some (l2, None)
  ∧ lifecycle.isRunning l3 = true
  ∧ lifecycle.Stop false l3 = None.
Proof.
  intros l1 l2 l3.
  apply (server_restart_then_Stop_panics default_manager lifecycle.new
           l1 l2 l3 true false false); reflexivity.
Defined.

(** ** Statistics of an [error] endpoint *)

Section Fidelity.

Import server.

Lemma handleDynamicEndpoint_error clk r e s :
  Type_ e = "error" →
  status_in_error_range (StatusCode e) →
  handleDynamicEndpoint clk r e s
  = (set_stats s (ServerStats.RecordRequest (URLPath r) (now clk) (since clk)
                                            (StatusCode e) (stats s)),
     Some (error_response e)).
Proof.
  intros Hty Hsc. unfold handleDynamicEndpoint. rewrite Hty.
  cbn [String.eqb Ascii.eqb Bool.eqb].
  rewrite (valid_header_code_error_range _ Hsc).
  unfold record, set_stats. cbn [stats config requestLog maxLogSize].
  by rewrite RecordRequest_after_GetEndpointStats.
Qed.

Lemma serve_all_error env e path c table reqs : ∀ s,
  live_config s = Some c →
  Endpoints c = Some table →
  table !! path = Some e →
  Type_ e = "error" →
  status_in_error_range (StatusCode e) →
  Forall (λ cr : Clock * Request, URLPath cr.2 = path) reqs →
  (serve_all env reqs s).2 = replicate (length reqs) (Some (error_response e))
  ∧ stats (serve_all env reqs s).1
    = record_requests (recorded_as path (StatusCode e) <$> reqs) (stats s)
  ∧ manager_of (serve_all env reqs s).1 = manager_of s.
Proof.
  induction reqs as [|[clk r] reqs IH]; intros s Hc Ht He Hty Hsc Hpaths;
    [done|].
  apply Forall_cons in Hpaths as [Hr Hpaths]. simpl in Hr. subst path.
  cbn [serve_all].
  rewrite (handleRequest_configured env clk r s c table e) by done.
  rewrite handleDynamicEndpoint_error by done.
  set (s1 := set_stats s _).
  destruct (IH s1) as (I1 & I2 & I3); try done.
  destruct (serve_all env reqs s1) as [s2 resps]. cbn [fst snd] in *.
  rewrite I1, I2, I3. done.
Qed.

Lemma record_requests_same_path p reqs : ∀ ss,
  Forall (λ pr : string * Recorded, pr.1 = p) reqs →
  reqs ≠ [] →
  ServerStats.Endpoints (record_requests reqs ss) !! p
  = Some (record_all reqs.*2
            (default (EndpointStats.new p) (ServerStats.Endpoints ss !! p))).
Proof.
  induction reqs as [|[q r] reqs IH] using rev_ind; intros ss Hall Hne; [done|].
  apply Forall_app in Hall as [Hall Hq]. rewrite Forall_singleton in Hq.
  simpl in Hq. subst q.
  rewrite record_requests_snoc, record_request_lookup.
  destruct (decide (p = p)) as [_|]; [|done].
  rewrite fmap_app. change (snd <$> [(p, r)]) with [r].
  rewrite record_all_snoc. f_equal. f_equal.
  destruct reqs as [|pr reqs]; [done|].
  by rewrite IH.
Qed.

Lemma record_all_constant_status code p reqs :
  400 ≤ code →
  Forall (λ r, rec_status r = code) reqs →
  Z.of_nat (length reqs) ≤ max_int64 →
  reqs ≠ [] →
  let es := record_all reqs (EndpointStats.new p) in
  EndpointStats.RequestCount es = Z.of_nat (length reqs)
  ∧ EndpointStats.ErrorCount es = Z.of_nat (length reqs)
  ∧ EndpointStats.StatusCodes es = Some {[ code := Z.of_nat (length reqs) ]}.
Proof.
  intros Hcode.
  induction reqs as [|r reqs IH] using rev_ind; [done|].
  intros Hall Hlen _. apply Forall_app in Hall as [Hall Hr].
  rewrite Forall_singleton in Hr.
  rewrite length_app in *. cbn [length] in *. cbn zeta.
  rewrite record_all_snoc.
  unfold record_one, EndpointStats.RecordRequest.
  cbn [EndpointStats.RequestCount EndpointStats.ErrorCount
       EndpointStats.StatusCodes].
  rewrite Hr. replace (400 <=? code) with true by lia.
  destruct reqs as [|r0 reqs].
  - simpl. split_and!; try done.
  - destruct IH as (I1 & I2 & I3); [done|lia|done|].
    cbn zeta in I1, I2, I3. rewrite I1, I2, I3.
    rewrite !wrap64_id by (unfold in_int64, min_int64, max_int64 in *; lia).
    split_and!; try lia.
    unfold EndpointStats.bump. cbn [default id].
    rewrite lookup_singleton_eq. cbn [default id].
    rewrite wrap64_id by (unfold in_int64, min_int64, max_int64 in *; lia).
    rewrite insert_singleton_eq. do 2 f_equal. lia.
Qed.

(** X24: an [error] endpoint that passed validation is registered under
    a path for which no statistics exist yet, and n requests for that
    path (at least one, few enough for the 64 bit counters) are served
    one after the other. Every response is the endpoint's status code
    with [{"error": message}]; afterwards the statistics of the path
    count n requests and n errors, their histogram has the single
    entry status code ↦ n, and the configuration is untouched. *)
Theorem error_endpoint_statistics
    (env : Env) (s : Server) (c : Config)
    (table : gmap string EndpointConfig) (path : string)
    (e : EndpointConfig) (reqs : list (Clock * Request)) :
  live_config s = Some c →
  Endpoints c = Some table →
  table !! path = Some e →
  Type_ e = "error" →
  validateEndpointConfig e = None →
  endpoint_stats s path = None →
  Forall (λ cr : Clock * Request, URLPath cr.2 = path) reqs →
  reqs ≠ [] →
  Z.of_nat (length reqs) ≤ max_int64 →
  (serve_all env reqs s).2 = replicate (length reqs) (Some (error_response e))
  ∧ manager_of (serve_all env reqs s).1 = manager_of s
  ∧ ∃ es,
      endpoint_stats (serve_all env reqs s).1 path = Some es
      ∧ EndpointStats.RequestCount es = Z.of_nat (length reqs)
      ∧ EndpointStats.ErrorCount es = Z.of_nat (length reqs)
      ∧ EndpointStats.StatusCodes es
        = Some {[ StatusCode e := Z.of_nat (length reqs) ]}.
Proof.
  intros Hc Ht He Hty Hv Hfresh Hpaths Hne Hlen.
  assert (status_in_error_range (StatusCode e)) as Hsc.
  { destruct (validateEndpointConfig_kinds e Hv)
      as [[_ ?]|[Hbad|[(Hbad & _)|Hbad]]]; [done|..];
      rewrite Hty in Hbad; discriminate. }
  destruct (serve_all_error env e path c table reqs s Hc Ht He Hty Hsc Hpaths)
    as (H1 & H2 & H3).
  split_and!; [done..|].
  unfold endpoint_stats in *. rewrite H2.
  rewrite (record_requests_same_path path).
  - rewrite Hfresh. cbn [default]. eexists. split; [done|].
    rewrite <- list_fmap_compose.
    assert (Forall (λ r, rec_status r = StatusCode e)
              ((snd ∘ recorded_as path (StatusCode e)) <$> reqs)) as Hst.
    { apply Forall_fmap. by apply Forall_true. }
    pose proof (record_all_constant_status (StatusCode e) path
                  ((snd ∘ recorded_as path (StatusCode e)) <$> reqs)) as Hrec.
    rewrite length_fmap in Hrec. apply Hrec; try done.
    + unfold status_in_error_range in Hsc. lia.
    + by destruct reqs.
  - apply Forall_fmap. by apply Forall_true.
  - by destruct reqs.
Qed.

Lemma error_endpoint_statistics_witness :
  let reqs := replicate 5 (sample_clock, request "GET" "/api/error") in
  let e := {| Type_ := "error"; StatusCode := 500;
              Message := "Internal Server Error"; DelayMs := 0;
              Response := None; ErrorEveryN := 0;
              SuccessResponse := None |} in
  (serve_all sample_env reqs default_server).2
  = replicate (length reqs) (Some (error_response e))
  ∧ manager_of (serve_all sample_env reqs default_server).1
    = manager_of default_server
  ∧ ∃ es,
      endpoint_stats (serve_all sample_env reqs default_server).1 "/api/error"
      = Some es
      ∧ EndpointStats.RequestCount es = Z.of_nat (length reqs)
      ∧ EndpointStats.ErrorCount es = Z.of_nat (length reqs)
      ∧ EndpointStats.StatusCodes es
        = Some {[ StatusCode e := Z.of_nat (length reqs) ]}.
Proof.
  intros reqs e.
  apply (error_endpoint_statistics sample_env default_server default_config
           (default ∅ (Endpoints default_config)) "/api/error" e reqs).
  - by vm_compute.
  - by vm_compute.
  - by vm_compute.
  - reflexivity.
  - reflexivity.
  - reflexivity.
  - repeat constructor.
  - discriminate.
  - vm_compute. discriminate.
Defined.

End Fidelity.
